(** * Sparse matrices: a shallow embedding of [src/index.js] and of
    [src/unnamed/part_000], and the properties of their arithmetic.

    Both files define a class [SparseMatrix] over a JavaScript [Map].
    [src/index.js] keys the map by the string [`${row},${col}`];
    [src/unnamed/part_000] keys it by the number [row * cols + col]
    (class [SparseMap]) and reads files through [FileHandler].

    Conventions of the embedding.
    - JavaScript numbers are modelled by [Z]: the theorems speak about runs
      in which every coordinate and value is an integer that the machine
      represents exactly.  A run that would produce [NaN] or [Infinity]
      (a division by a zero column count, [Number] applied to text that is
      not a decimal integer) ends in [Unmodelled].
    - A [Map] is an association list in insertion order: [Map.set] on a
      present key replaces the value in place, on an absent key appends;
      [Map.delete] removes; iteration follows the list.
    - [throw new Error(msg)] is [Throw msg]. *)

From Stdlib Require Import ZArith List Finite String Ascii Bool Lia.
From Stdlib Require Import DecimalString DecimalPos DecimalZ.
Import ListNotations.

Set Implicit Arguments.

#[local] Open Scope Z_scope.

(** ** Outcomes of a run *)

Inductive outcome (A : Type) : Type :=
| Ret (a : A)
| Throw (msg : string)
| Unmodelled.

Arguments Ret {A} a.
Arguments Throw {A} msg.
Arguments Unmodelled {A}.

Definition obind {A B} (x : outcome A) (f : A -> outcome B) : outcome B :=
  match x with
  | Ret a => f a
  | Throw msg => Throw msg
  | Unmodelled => Unmodelled
  end.

Notation "x <- c1 ;; c2" := (obind c1 (fun x => c2))
  (at level 61, c1 at next level, right associativity).
Notation "' pat <- c1 ;; c2" := (obind c1 (fun x => match x with pat => c2 end))
  (at level 61, pat pattern, c1 at next level, right associativity).

(** [for (const x of xs) body], threading the object the body mutates. *)
Fixpoint for_of {A S} (xs : list A) (body : A -> S -> outcome S) (s : S)
  : outcome S :=
  match xs with
  | [] => Ret s
  | x :: xs' => s' <- body x s ;; for_of xs' body s'
  end.

(** [try { ... } catch (error) { throw new Error(prefix + error.message) }] *)
Definition rethrow {A} (prefix : string) (x : outcome A) : outcome A :=
  match x with
  | Throw msg => Throw (prefix ++ msg)
  | other => other
  end.

(** ** The JavaScript [Map], in insertion order *)

Module JSMap.
Section Map.
Variables K V : Type.
Variable eqb : K -> K -> bool.

Definition t := list (K * V).

Definition empty : t := [].

Fixpoint get (m : t) (k : K) : option V :=
  match m with
  | [] => None
  | (k', v) :: m' => if eqb k' k then Some v else get m' k
  end.

Fixpoint set (m : t) (k : K) (v : V) : t :=
  match m with
  | [] => [(k, v)]
  | (k', v') :: m' =>
      if eqb k' k then (k', v) :: m' else (k', v') :: set m' k v
  end.

Fixpoint delete (m : t) (k : K) : t :=
  match m with
  | [] => []
  | (k', v') :: m' => if eqb k' k then m' else (k', v') :: delete m' k
  end.

Definition size (m : t) : nat := List.length m.

Definition keys (m : t) : list K := map fst m.

(** A [Map] holds a key once. *)
Fixpoint mem (k : K) (l : list K) : bool :=
  match l with
  | [] => false
  | k' :: l' => eqb k' k || mem k l'
  end.

Fixpoint distinct (l : list K) : bool :=
  match l with
  | [] => true
  | k :: l' => negb (mem k l') && distinct l'
  end.
End Map.

(** Maps to integers, as both files use them. *)
Section Store.
Variable K : Type.
Variable eqb : K -> K -> bool.

(** [m.get(k) || 0] *)
Definition lookup (m : t K Z) (k : K) : Z :=
  match get eqb m k with
  | Some v => v
  | None => 0
  end.

(** [if (v !== 0) m.set(k, v) else m.delete(k)] *)
Definition store (m : t K Z) (k : K) (v : Z) : t K Z :=
  if negb (v =? 0) then set eqb m k v else delete eqb m k.

(** Invariant 1 of the data model: no stored value is zero. *)
Definition zero_free (m : t K Z) : bool :=
  forallb (fun kv => negb (snd kv =? 0)) m.

(** The sum of the amounts that a list of updates directs to [k]. *)
Fixpoint total (updates : list (K * Z)) (k : K) : Z :=
  match updates with
  | [] => 0
  | (k', d) :: rest => if eqb k' k then d + total rest k else total rest k
  end.

(** [m.set/delete(k, (m.get(k) || 0) + d)], the step every loop of the
    two files takes, and a run of such steps. *)
Definition bump (m : t K Z) (u : K * Z) : t K Z :=
  store m (fst u) (lookup m (fst u) + snd u).

Definition accumulate (updates : list (K * Z)) (m : t K Z) : t K Z :=
  fold_left bump updates m.
End Store.
End JSMap.

(** A list of triples [(row, col, value)] is a map keyed by the pair. *)
Definition pair_eqb (a b : Z * Z) : bool :=
  (fst a =? fst b) && (snd a =? snd b).

(** The value a list of triples gives to a coordinate. *)
Definition value_at (l : list (Z * Z * Z)) (row col : Z) : Z :=
  JSMap.total pair_eqb l (row, col).


(** Invariant 2 of the data model, for one coordinate. *)
Definition in_range (rows cols row col : Z) : bool :=
  (0 <=? row) && (row <? rows) && (0 <=? col) && (col <? cols).

(** ** JavaScript strings

    A [string] stands for a JavaScript string whose code units are all
    below 256.  The functions below are the built-ins the two files call. *)

Module JS.
#[local] Open Scope string_scope.

(** [\d]: the ten ASCII digits. *)
Definition is_digit (c : ascii) : bool :=
  let n := N_of_ascii c in ((48 <=? n) && (n <=? 57))%N.

(** [\s], and what [trim] strips: TAB, LF, VT, FF, CR, SPACE, NBSP. *)
Definition is_space (c : ascii) : bool :=
  let n := N_of_ascii c in
  (((9 <=? n) && (n <=? 13)) || (n =? 32) || (n =? 160))%N.

Fixpoint trimStart (s : string) : string :=
  match s with
  | "" => ""
  | String c s' => if is_space c then trimStart s' else s
  end.

Fixpoint trimEnd (s : string) : string :=
  match s with
  | "" => ""
  | String c s' =>
      match trimEnd s' with
      | "" => if is_space c then "" else String c ""
      | r => String c r
      end
  end.

(** [s.trim()] *)
Definition trim (s : string) : string := trimEnd (trimStart s).

(** [s.split(sep)] for a separator of one character. *)
Fixpoint split (sep : ascii) (s : string) : list string :=
  match s with
  | "" => [""]
  | String c s' =>
      if Ascii.eqb c sep then "" :: split sep s'
      else match split sep s' with
           | h :: t => String c h :: t
           | [] => [String c ""]
           end
  end.

(** [`${n}`] for an integer [n]: decimal digits, [-] in front of a
    negative one. *)
Definition toString (n : Z) : string := NilZero.string_of_int (Z.to_int n).

(** The integer written by a text of the form [-?[0-9]+].  [None] on any
    other text: JavaScript gives [NaN] there, or reads a syntax this
    embedding leaves out (blanks, [+], exponents, hexadecimal, the empty
    string). *)
Definition decimal (s : string) : option Z :=
  option_map Z.of_int (NilZero.int_of_string s).

(** [Number(s)] and [parseInt(s)] agree on the texts [decimal] reads. *)
Definition Number (s : string) : option Z := decimal s.
Definition parseInt (s : string) : option Z := decimal s.

(** *** The three regular expressions

    Each is matched the way [String.prototype.match] does without the
    [g] flag: the pattern is tried at every start position from the left
    and the first match wins.  In these patterns a greedy run ([\d+],
    [\s*], [-?]) is always followed by an atom that the run's own
    characters cannot match, so taking the longest run is the only way
    to match and no backtracking is lost. *)

(** [\d+] at the head of [s]: the digits and the rest. *)
Fixpoint digits (s : string) : string * string :=
  match s with
  | "" => ("", "")
  | String c s' =>
      if is_digit c then let (d, r) := digits s' in (String c d, r)
      else ("", s)
  end.

Definition digits1 (s : string) : option (string * string) :=
  match digits s with
  | ("", _) => None
  | p => Some p
  end.

(** A literal text at the head of [s]: the rest. *)
Fixpoint literal (p s : string) : option string :=
  match p with
  | "" => Some s
  | String a p' =>
      match s with
      | "" => None
      | String c s' => if Ascii.eqb a c then literal p' s' else None
      end
  end.

Fixpoint search {R} (here : string -> option R) (s : string) : option R :=
  match here s with
  | Some r => Some r
  | None =>
      match s with
      | "" => None
      | String _ s' => search here s'
      end
  end.

(** [name=(\d+)] at the head of [s]: group 1. *)
Definition header_here (name s : string) : option string :=
  match literal name s with
  | None => None
  | Some rest => option_map fst (digits1 rest)
  end.

(** [s.match(/rows=(\d+)/)] and [s.match(/cols=(\d+)/)]: group 1. *)
Definition match_rows (s : string) : option string :=
  search (header_here "rows=") s.
Definition match_cols (s : string) : option string :=
  search (header_here "cols=") s.

(** [\((\d+),\s*(\d+),\s*(-?\d+)\)] at the head of [s]: groups 1 to 3. *)
Definition element_here (s : string) : option (string * string * string) :=
  match literal "(" s with
  | None => None
  | Some s1 =>
  match digits1 s1 with
  | None => None
  | Some (row, s2) =>
  match literal "," s2 with
  | None => None
  | Some s3 =>
  match digits1 (trimStart s3) with
  | None => None
  | Some (col, s4) =>
  match literal "," s4 with
  | None => None
  | Some s5 =>
  let s6 := trimStart s5 in
  let (sign, s7) := match literal "-" s6 with
                    | Some r => ("-", r)
                    | None => ("", s6)
                    end in
  match digits1 s7 with
  | None => None
  | Some (val, s8) =>
  match literal ")" s8 with
  | None => None
  | Some _ => Some (row, col, sign ++ val)
  end end end end end end end.

(** [s.match(/\((\d+),\s*(\d+),\s*(-?\d+)\)/)] *)
Definition match_element (s : string) : option (string * string * string) :=
  search element_here s.

(** [content.split('\n').map(line => line.trim()).filter(line => line)] *)
Definition nonblank_lines (content : string) : list string :=
  filter (fun line => negb (String.eqb line ""))
         (map trim (split "010" content)).
End JS.

(** ** Objects in a heap

    The methods of both files build their result in a fresh object and
    mutate only that object.  To state that an operand is left as it was,
    the methods concerned are also given as programs over a heap of
    objects, addressed by position. *)

Section Heap.
Variable Obj : Type.

Definition ref := nat.
Definition heap := list Obj.
Definition prog (A : Type) := heap -> outcome A * heap.

Definition pret {A} (a : A) : prog A := fun h => (Ret a, h).
Definition pthrow {A} (msg : string) : prog A := fun h => (Throw msg, h).
Definition punmodelled {A} : prog A := fun h => (Unmodelled, h).

Definition pbind {A B} (c : prog A) (f : A -> prog B) : prog B :=
  fun h =>
    match c h with
    | (Ret a, h') => f a h'
    | (Throw msg, h') => (Throw msg, h')
    | (Unmodelled, h') => (Unmodelled, h')
    end.

(** [new C(...)]: the object goes to a fresh address. *)
Definition alloc (o : Obj) : prog ref :=
  fun h => (Ret (List.length h), h ++ [o]).

(** Reading the object behind a reference. *)
Definition deref (r : ref) : prog Obj :=
  fun h =>
    match nth_error h r with
    | Some o => (Ret o, h)
    | None => (Unmodelled, h)
    end.

Fixpoint replace_nth (h : heap) (r : ref) (o : Obj) : heap :=
  match h, r with
  | [], _ => []
  | _ :: h', 0%nat => o :: h'
  | x :: h', S r' => x :: replace_nth h' r' o
  end.

(** Mutating the object behind a reference. *)
Definition assign (r : ref) (o : Obj) : prog unit :=
  fun h => (Ret tt, replace_nth h r o).

Fixpoint pfor {A} (xs : list A) (body : A -> prog unit) : prog unit :=
  match xs with
  | [] => pret tt
  | x :: xs' => pbind (body x) (fun _ => pfor xs' body)
  end.
End Heap.

Arguments pret {Obj A} a.
Arguments pthrow {Obj A} msg.
Arguments punmodelled {Obj A}.

Notation "'do' x <- c1 ; c2" := (pbind c1 (fun x => c2))
  (at level 61, x name, c1 at next level, right associativity).

(** ** [src/index.js]: the string-keyed matrix *)

Module IndexJs.
#[local] Open Scope string_scope.
#[local] Open Scope Z_scope.

Record SparseMatrix := mk {
  rows : Z;
  cols : Z;
  elements : JSMap.t string Z
}.

(** [new SparseMatrix([rows, cols])] *)
Definition new (rows cols : Z) : SparseMatrix := mk rows cols [].

(** [`${currRow},${currCol}`] *)
Definition key (currRow currCol : Z) : string :=
  JS.toString currRow ++ "," ++ JS.toString currCol.

(** [this.elements.get(key) || 0]; on an integer [v], [v || 0] is [v]. *)
Definition getElement (this : SparseMatrix) (currRow currCol : Z) : Z :=
  match JSMap.get String.eqb (elements this) (key currRow currCol) with
  | Some v => v
  | None => 0
  end.

Definition setElement (this : SparseMatrix) (currRow currCol value : Z)
  : SparseMatrix :=
  let key := key currRow currCol in
  if negb (value =? 0)
  then mk (rows this) (cols this)
          (JSMap.set String.eqb (elements this) key value)
  else mk (rows this) (cols this)
          (JSMap.delete String.eqb (elements this) key).

(** [this.elements.size], as [toString] reports it. *)
Definition size (this : SparseMatrix) : nat := JSMap.size (elements this).

(** [const [row, col] = key.split(',').map(Number)] *)
Definition coords (key : string) : option (Z * Z) :=
  match map JS.Number (JS.split "," key) with
  | Some row :: Some col :: _ => Some (row, col)
  | _ => None
  end.

(** [result.elements.set(key, value)] *)
Definition copy_entry (kv : string * Z) (result : SparseMatrix)
  : outcome SparseMatrix :=
  let (key, value) := kv in
  Ret (mk (rows result) (cols result)
          (JSMap.set String.eqb (elements result) key value)).

(** The body of the second loop of [add] ([op] is [+]) and of [subtract]
    ([op] is [-]). *)
Definition combine_entry (op : Z -> Z -> Z) (kv : string * Z)
           (result : SparseMatrix) : outcome SparseMatrix :=
  let (key, value) := kv in
  match coords key with
  | Some (row, col) =>
      Ret (setElement result row col (op (getElement result row col) value))
  | None => Unmodelled
  end.

Definition add (this other : SparseMatrix) : outcome SparseMatrix :=
  let result := new (rows this) (cols this) in
  result <- for_of (elements this) copy_entry result ;;
  for_of (elements other) (combine_entry Z.add) result.

Definition subtract (this other : SparseMatrix) : outcome SparseMatrix :=
  let result := new (rows this) (cols this) in
  result <- for_of (elements this) copy_entry result ;;
  for_of (elements other) (combine_entry Z.sub) result.

Definition dimension_message : string :=
  "Matrix dimensions are not compatible for multiplication".

(** The body of the inner loop of [multiply], for the entry
    [(key1, value1)] of the outer loop already split into [i], [k]. *)
Definition multiply_inner (i k value1 : Z) (kv : string * Z)
           (result : SparseMatrix) : outcome SparseMatrix :=
  let (key2, value2) := kv in
  match coords key2 with
  | Some (row, j) =>
      if k =? row then
        let currVal := getElement result i j in
        Ret (setElement result i j (currVal + value1 * value2))
      else Ret result
  | None => Unmodelled
  end.

Definition multiply_outer (other : SparseMatrix) (kv : string * Z)
           (result : SparseMatrix) : outcome SparseMatrix :=
  let (key1, value1) := kv in
  match coords key1 with
  | Some (i, k) => for_of (elements other) (multiply_inner i k value1) result
  | None => Unmodelled
  end.

Definition multiply (this other : SparseMatrix) : outcome SparseMatrix :=
  if negb (cols this =? rows other) then Throw dimension_message
  else
    let result := new (rows this) (cols other) in
    for_of (elements this) (multiply_outer other) result.
(** *** The data model

    [entries] lists the triples the map stands for, in the order of the
    map, the way every loop over [elements] reads them. *)

Definition entry (kv : string * Z) : outcome (Z * Z * Z) :=
  let (key, value) := kv in
  match coords key with
  | Some (row, col) => Ret (row, col, value)
  | None => Unmodelled
  end.

Fixpoint entries_of (m : JSMap.t string Z) : outcome (list (Z * Z * Z)) :=
  match m with
  | [] => Ret []
  | kv :: m' => e <- entry kv ;; es <- entries_of m' ;; Ret (e :: es)
  end.

Definition entries (this : SparseMatrix) : outcome (list (Z * Z * Z)) :=
  entries_of (elements this).

(** Every key is the text [setElement] writes for its coordinate. *)
Definition canonical (kv : string * Z) : bool :=
  match coords (fst kv) with
  | Some (row, col) => String.eqb (key row col) (fst kv)
  | None => false
  end.

(** A map with distinct keys, written by [setElement], without zero. *)
Definition well_formed (this : SparseMatrix) : bool :=
  JSMap.distinct String.eqb (JSMap.keys (elements this))
  && forallb canonical (elements this)
  && JSMap.zero_free (elements this).

(** Invariant 2: every stored coordinate lies within the dimensions. *)
Definition in_bounds (this : SparseMatrix) : bool :=
  forallb (fun kv =>
             match coords (fst kv) with
             | Some (row, col) => in_range (rows this) (cols this) row col
             | None => false
             end) (elements this).

Definition valid (this : SparseMatrix) : bool :=
  well_formed this && in_bounds this.

(** The matrix a sequence of [setElement] calls builds. *)
Definition build (rows cols : Z) (calls : list (Z * Z * Z)) : SparseMatrix :=
  fold_left (fun m c => let '(row, col, value) := c in setElement m row col value)
            calls (new rows cols).

(** [loadFromFile], from the text [fs.readFile] returned. *)
Definition load_line (line : string) (this : SparseMatrix)
  : outcome SparseMatrix :=
  match JS.match_element line with
  | Some (row, col, value) =>
      match JS.parseInt row, JS.parseInt col, JS.parseInt value with
      | Some row, Some col, Some value => Ret (setElement this row col value)
      | _, _, _ => Unmodelled
      end
  | None => Ret this
  end.

Definition loadFromFile (this : SparseMatrix) (fileContent : string)
  : outcome SparseMatrix :=
  rethrow "Unable to open input file: "
    (let lines := JS.nonblank_lines fileContent in
     if (List.length lines <? 3)%nat
     then Throw "Input file has insufficient data"
     else
       match JS.match_rows (nth 0 lines ""), JS.match_cols (nth 1 lines "") with
       | Some rowMatch, Some colMatch =>
           match JS.parseInt rowMatch, JS.parseInt colMatch with
           | Some rows, Some cols =>
               for_of (skipn 2 lines) load_line (mk rows cols (elements this))
           | _, _ => Unmodelled
           end
       | _, _ => Throw "Input file has wrong format"
       end).

(** *** [multiply] over a heap of [SparseMatrix] objects

    A loop reads the map it iterates when it starts; its body writes to
    [result] alone. *)

Definition getElement_st (this : ref) (currRow currCol : Z)
  : prog SparseMatrix Z :=
  do o <- deref this ; pret (getElement o currRow currCol).

Definition setElement_st (this : ref) (currRow currCol value : Z)
  : prog SparseMatrix unit :=
  do o <- deref this ; assign this (setElement o currRow currCol value).

Definition multiply_inner_st (result : ref) (i k value1 : Z)
           (kv : string * Z) : prog SparseMatrix unit :=
  let (key2, value2) := kv in
  match coords key2 with
  | Some (row, j) =>
      if k =? row then
        do currVal <- getElement_st result i j ;
        setElement_st result i j (currVal + value1 * value2)
      else pret tt
  | None => punmodelled
  end.

Definition multiply_outer_st (result other : ref) (kv : string * Z)
  : prog SparseMatrix unit :=
  let (key1, value1) := kv in
  match coords key1 with
  | Some (i, k) =>
      do o <- deref other ;
      pfor (elements o) (multiply_inner_st result i k value1)
  | None => punmodelled
  end.

Definition multiply_st (this other : ref) : prog SparseMatrix ref :=
  do a <- deref this ;
  do b <- deref other ;
  if negb (cols a =? rows b) then pthrow dimension_message
  else
    do result <- alloc (new (rows a) (cols b)) ;
    do _ <- pfor (elements a) (multiply_outer_st result other) ;
    pret result.
(** *** [saveToFile]: the text handed to [fs.writeFile]

    [const [row, col] = key.split(',')] takes the first two pieces of the
    key as texts; a piece that is missing is [undefined], and a template
    prints it as the word.  The numbers are printed by [JS.toString], in
    plain decimal: so JavaScript prints an integer below [10^21] in
    absolute value. *)

Definition entry_line (kv : string * Z) : string :=
  let (key, value) := kv in
  let (row, col) := match JS.split "," key with
                    | row :: col :: _ => (row, col)
                    | [row] => (row, "undefined")
                    | [] => ("undefined", "undefined")
                    end in
  "(" ++ row ++ ", " ++ col ++ ", " ++ JS.toString value ++ ")" ++ String "010" "".

Definition saveToFile (this : SparseMatrix) : string :=
  let content := "rows=" ++ JS.toString (rows this) ++ String "010" "" in
  let content := content ++ ("cols=" ++ JS.toString (cols this) ++ String "010" "") in
  fold_left (fun content kv => content ++ entry_line kv) (elements this) content.

(** *** [add] and [subtract] over the heap *)

Definition copy_entry_st (result : ref) (kv : string * Z)
  : prog SparseMatrix unit :=
  let (key, value) := kv in
  do o <- deref result ;
  assign result (mk (rows o) (cols o)
                    (JSMap.set String.eqb (elements o) key value)).

Definition combine_entry_st (op : Z -> Z -> Z) (result : ref)
           (kv : string * Z) : prog SparseMatrix unit :=
  let (key, value) := kv in
  match coords key with
  | Some (row, col) =>
      do current <- getElement_st result row col ;
      setElement_st result row col (op current value)
  | None => punmodelled
  end.

Definition combine_st (op : Z -> Z -> Z) (this other : ref)
  : prog SparseMatrix ref :=
  do a <- deref this ;
  do result <- alloc (new (rows a) (cols a)) ;
  do a <- deref this ;
  do _ <- pfor (elements a) (copy_entry_st result) ;
  do b <- deref other ;
  do _ <- pfor (elements b) (combine_entry_st op result) ;
  pret result.

Definition add_st (this other : ref) : prog SparseMatrix ref :=
  combine_st Z.add this other.

Definition subtract_st (this other : ref) : prog SparseMatrix ref :=
  combine_st Z.sub this other.
End IndexJs.

(** ** [src/unnamed/part_000]: the number-keyed matrix *)

Module Part000.
#[local] Open Scope string_scope.
#[local] Open Scope Z_scope.

(** *** [class SparseMap] *)
Module SparseMap.
Record t := mk {
  rows : Z;
  cols : Z;
  elements : JSMap.t Z Z
}.

(** [new SparseMap(rows, cols)] *)
Definition new (rows cols : Z) : t := mk rows cols [].

Definition getKey (this : t) (row col : Z) : Z :=
  row * cols this + col.

(** [this.elements.get(this.getKey(row, col)) || 0] *)
Definition get (this : t) (row col : Z) : Z :=
  match JSMap.get Z.eqb (elements this) (getKey this row col) with
  | Some v => v
  | None => 0
  end.

Definition set (this : t) (row col value : Z) : t :=
  let key := getKey this row col in
  if negb (value =? 0)
  then mk (rows this) (cols this)
          (JSMap.set Z.eqb (elements this) key value)
  else mk (rows this) (cols this)
          (JSMap.delete Z.eqb (elements this) key).

(** [[Math.floor(key / this.cols), key % this.cols, value]].  With
    [this.cols] zero JavaScript computes [NaN] or [Infinity]. *)
Definition triple (this : t) (kv : Z * Z) : outcome (Z * Z * Z) :=
  let (key, value) := kv in
  if cols this =? 0 then Unmodelled
  else Ret (key / cols this, Z.rem key (cols this), value).

Fixpoint yield_all {A B} (f : A -> outcome B) (xs : list A)
  : outcome (list B) :=
  match xs with
  | [] => Ret []
  | x :: xs' => y <- f x ;; ys <- yield_all f xs' ;; Ret (y :: ys)
  end.

(** [*[Symbol.iterator]()]: the triples a [for ... of] receives. *)
Definition iterator (this : t) : outcome (list (Z * Z * Z)) :=
  yield_all (triple this) (elements this).

(** [get size()] *)
Definition size (this : t) : nat := JSMap.size (elements this).

(** **** The data model *)

(** A map with distinct keys and without zero. *)
Definition well_formed (this : t) : bool :=
  JSMap.distinct Z.eqb (JSMap.keys (elements this))
  && JSMap.zero_free (elements this).

(** Invariant 2: every key stands for a coordinate within the
    dimensions. *)
Definition in_bounds (this : t) : bool :=
  forallb (fun kv =>
             in_range (rows this) (cols this)
                      (fst kv / cols this) (Z.rem (fst kv) (cols this)))
          (elements this).

Definition valid (this : t) : bool := well_formed this && in_bounds this.

(** The map a sequence of [set] calls builds. *)
Definition build (rows cols : Z) (calls : list (Z * Z * Z)) : t :=
  fold_left (fun m c => let '(row, col, value) := c in set m row col value)
            calls (new rows cols).
End SparseMap.

(** *** [class FileHandler] *)
Module FileHandler.
Definition read_line (line : string) (elements : list (Z * Z * Z))
  : outcome (list (Z * Z * Z)) :=
  match JS.match_element line with
  | Some (row, col, value) =>
      match JS.parseInt row, JS.parseInt col, JS.parseInt value with
      | Some row, Some col, Some value =>
          Ret (elements ++ [(row, col, value)])%list
      | _, _, _ => Unmodelled
      end
  | None => Ret elements
  end.

(** [readMatrix], from the text [fs.readFile] returned. *)
Definition readMatrix (content : string)
  : outcome (Z * Z * list (Z * Z * Z)) :=
  rethrow "Unable to read input file: "
    (let lines := JS.nonblank_lines content in
     if (List.length lines <? 3)%nat
     then Throw "Input file has insufficient data"
     else
       match JS.match_rows (nth 0 lines ""),
             JS.match_cols (nth 1 lines "") with
       | Some rowMatch, Some colMatch =>
           match JS.parseInt rowMatch, JS.parseInt colMatch with
           | Some rows, Some cols =>
               elements <- for_of (skipn 2 lines) read_line [] ;;
               Ret (rows, cols, elements)
           | _, _ => Unmodelled
           end
       | _, _ => Throw "Input file has wrong format"
       end).
(** [writeMatrix]: the text handed to [fs.writeFile], from what the
    method reads of [matrix]: its two dimensions and the triples its
    iterator yields. *)
Definition triple_line (e : Z * Z * Z) : string :=
  let '(row, col, value) := e in
  "(" ++ JS.toString row ++ ", " ++ JS.toString col ++ ", "
      ++ JS.toString value ++ ")" ++ String "010" "".

Definition writeMatrix (rows cols : Z) (yielded : outcome (list (Z * Z * Z)))
  : outcome string :=
  rethrow "Unable to write output file: "
    (let content := "rows=" ++ JS.toString rows ++ String "010" "" in
     let content := content ++ ("cols=" ++ JS.toString cols ++ String "010" "") in
     triples <- yielded ;;
     Ret (fold_left (fun content e => content ++ triple_line e) triples content)).
End FileHandler.

(** *** [class SparseMatrix] *)
Module SparseMatrix.
Record t := mk { data : SparseMap.t }.

(** [new SparseMatrix([rows, cols])] *)
Definition new (rows cols : Z) : t := mk (SparseMap.new rows cols).

Definition rows (this : t) : Z := SparseMap.rows (data this).
Definition cols (this : t) : Z := SparseMap.cols (data this).

Definition getElement (this : t) (row col : Z) : Z :=
  SparseMap.get (data this) row col.

Definition setElement (this : t) (row col value : Z) : t :=
  mk (SparseMap.set (data this) row col value).

Definition set_entry (e : Z * Z * Z) (matrix : t) : outcome t :=
  let '(row, col, value) := e in Ret (setElement matrix row col value).

(** [static async fromFile], from the text of the file. *)
Definition fromFile (content : string) : outcome t :=
  '(rows, cols, elements) <- FileHandler.readMatrix content ;;
  for_of elements set_entry (new rows cols).

(** The body of the second loop of [add] ([op] is [+]) and of
    [subtract] ([op] is [-]). *)
Definition combine_entry (op : Z -> Z -> Z) (e : Z * Z * Z) (result : t)
  : outcome t :=
  let '(row, col, value) := e in
  Ret (setElement result row col (op (getElement result row col) value)).

Definition add (this other : t) : outcome t :=
  let result := new (rows this) (cols this) in
  mine <- SparseMap.iterator (data this) ;;
  result <- for_of mine set_entry result ;;
  theirs <- SparseMap.iterator (data other) ;;
  for_of theirs (combine_entry Z.add) result.

Definition subtract (this other : t) : outcome t :=
  let result := new (rows this) (cols this) in
  mine <- SparseMap.iterator (data this) ;;
  result <- for_of mine set_entry result ;;
  theirs <- SparseMap.iterator (data other) ;;
  for_of theirs (combine_entry Z.sub) result.

Definition dimension_message : string :=
  "Matrix dimensions are not compatible for multiplication".

Definition multiply_inner (i k value1 : Z) (e : Z * Z * Z) (result : t)
  : outcome t :=
  let '(row, j, value2) := e in
  if k =? row then
    let currVal := getElement result i j in
    Ret (setElement result i j (currVal + value1 * value2))
  else Ret result.

Definition multiply_outer (other : t) (e : Z * Z * Z) (result : t)
  : outcome t :=
  let '(i, k, value1) := e in
  theirs <- SparseMap.iterator (data other) ;;
  for_of theirs (multiply_inner i k value1) result.

Definition multiply (this other : t) : outcome t :=
  if negb (cols this =? rows other) then Throw dimension_message
  else
    let result := new (rows this) (cols other) in
    mine <- SparseMap.iterator (data this) ;;
    for_of mine (multiply_outer other) result.

(** [*[Symbol.iterator]() { yield* this.data }] *)
Definition iterator (this : t) : outcome (list (Z * Z * Z)) :=
  SparseMap.iterator (data this).
(** *** [multiply] over a heap of [SparseMap] objects

    A [SparseMatrix] never reassigns its [data], so a matrix is
    addressed by the reference to its [SparseMap].  A loop reads the
    map it iterates when it starts; its body writes to [result]
    alone. *)

Definition lift {A} (x : outcome A) : prog SparseMap.t A :=
  fun h => (x, h).

Definition getElement_st (this : ref) (row col : Z)
  : prog SparseMap.t Z :=
  do o <- deref this ; pret (SparseMap.get o row col).

Definition setElement_st (this : ref) (row col value : Z)
  : prog SparseMap.t unit :=
  do o <- deref this ; assign this (SparseMap.set o row col value).

Definition iterator_st (this : ref)
  : prog SparseMap.t (list (Z * Z * Z)) :=
  do o <- deref this ; lift (SparseMap.iterator o).

Definition multiply_inner_st (result : ref) (i k value1 : Z)
           (e : Z * Z * Z) : prog SparseMap.t unit :=
  let '(row, j, value2) := e in
  if k =? row then
    do currVal <- getElement_st result i j ;
    setElement_st result i j (currVal + value1 * value2)
  else pret tt.

Definition multiply_outer_st (result other : ref) (e : Z * Z * Z)
  : prog SparseMap.t unit :=
  let '(i, k, value1) := e in
  do theirs <- iterator_st other ;
  pfor theirs (multiply_inner_st result i k value1).

Definition multiply_st (this other : ref) : prog SparseMap.t ref :=
  do a <- deref this ;
  do b <- deref other ;
  if negb (SparseMap.cols a =? SparseMap.rows b)
  then pthrow dimension_message
  else
    do result <- alloc (SparseMap.new (SparseMap.rows a) (SparseMap.cols b)) ;
    do mine <- iterator_st this ;
    do _ <- pfor mine (multiply_outer_st result other) ;
    pret result.
(** [async saveToFile]: the text handed to [fs.writeFile]. *)
Definition saveToFile (this : t) : outcome string :=
  FileHandler.writeMatrix (rows this) (cols this) (iterator this).

(** *** [add] and [subtract] over the heap *)

Definition set_entry_st (result : ref) (e : Z * Z * Z)
  : prog SparseMap.t unit :=
  let '(row, col, value) := e in setElement_st result row col value.

Definition combine_entry_st (op : Z -> Z -> Z) (result : ref)
           (e : Z * Z * Z) : prog SparseMap.t unit :=
  let '(row, col, value) := e in
  do current <- getElement_st result row col ;
  setElement_st result row col (op current value).

Definition combine_st (op : Z -> Z -> Z) (this other : ref)
  : prog SparseMap.t ref :=
  do a <- deref this ;
  do result <- alloc (SparseMap.new (SparseMap.rows a) (SparseMap.cols a)) ;
  do mine <- iterator_st this ;
  do _ <- pfor mine (set_entry_st result) ;
  do theirs <- iterator_st other ;
  do _ <- pfor theirs (combine_entry_st op result) ;
  pret result.

Definition add_st (this other : ref) : prog SparseMap.t ref :=
  combine_st Z.add this other.

Definition subtract_st (this other : ref) : prog SparseMap.t ref :=
  combine_st Z.sub this other.
End SparseMatrix.

(** *** [main]

    The answers to the three prompts are parameters, and so is the file
    system: [readFile] gives the text of a file or the error of
    [fs.readFile], [writeFile] the result of [fs.writeFile].  A run is
    reported as the lines [console.log] and [console.error] printed and
    the files written. *)

Record report := mk_report {
  logged : list string;
  errors : list string;
  written : list (string * string)
}.

Definition menu : string :=
  "Select operation:" ++ String "010" ("1. Addition" ++ String "010"
  ("2. Subtraction" ++ String "010" "3. Multiplication")).

(** [await SparseMatrix.fromFile(filename)] *)
Definition fromFile_at (readFile : string -> outcome string)
           (filename : string) : outcome SparseMatrix.t :=
  match readFile filename with
  | Ret content => SparseMatrix.fromFile content
  | Throw msg => Throw ("Unable to read input file: " ++ msg)
  | Unmodelled => Unmodelled
  end.

(** [switch (choice)] *)
Definition operate (choice : string) (matrix1 matrix2 : SparseMatrix.t)
  : outcome SparseMatrix.t :=
  if String.eqb choice "1" then SparseMatrix.add matrix1 matrix2
  else if String.eqb choice "2" then SparseMatrix.subtract matrix1 matrix2
  else if String.eqb choice "3" then SparseMatrix.multiply matrix1 matrix2
  else Throw "Invalid operation choice".

(** [await result.saveToFile(filename)]: the text written. *)
Definition saveToFile_at (writeFile : string -> string -> outcome unit)
           (filename : string) (result : SparseMatrix.t) : outcome string :=
  content <- SparseMatrix.saveToFile result ;;
  _ <- rethrow "Unable to write output file: " (writeFile filename content) ;;
  Ret content.

Definition main (readFile : string -> outcome string)
           (writeFile : string -> string -> outcome unit)
           (choice file1 file2 : string) : outcome report :=
  let attempt :=
    matrix1 <- fromFile_at readFile file1 ;;
    matrix2 <- fromFile_at readFile file2 ;;
    result <- operate choice matrix1 matrix2 ;;
    saveToFile_at writeFile "result.txt" result in
  match attempt with
  | Ret content =>
      Ret (mk_report [menu; "Result saved to result.txt"] []
                     [("result.txt", content)])
  | Throw msg => Ret (mk_report [menu] ["Error: " ++ msg] [])
  | Unmodelled => Unmodelled
  end.
End Part000.

(** ** Vocabulary of the statements *)

(** Whether a character occurs in a text. *)
Fixpoint occurs (c : ascii) (s : string) : bool :=
  match s with
  | EmptyString => false
  | String a s' => Ascii.eqb a c || occurs c s'
  end.

(** The amounts [multiply] adds to the result, coordinate by coordinate,
    in the order of its two loops. *)
Definition products_with (i k value1 : Z) (theirs : list (Z * Z * Z))
  : list (Z * Z * Z) :=
  flat_map (fun e => let '(row, j, value2) := e in
                     if k =? row then [(i, j, value1 * value2)] else [])
           theirs.

Definition products (mine theirs : list (Z * Z * Z)) : list (Z * Z * Z) :=
  flat_map (fun e => let '(i, k, value1) := e in products_with i k value1 theirs)
           mine.

(** The key of each file as a function of the coordinate pair. *)
Definition index_key (p : Z * Z) : string := IndexJs.key (fst p) (snd p).
Definition part_key (cols : Z) (p : Z * Z) : Z := fst p * cols + snd p.

(** What the loops of [src/unnamed/part_000] need of a map to read it
    back: distinct keys, no zero, and, where there is a key at all, a
    positive column count and no negative key. *)
Definition part_proper (m : Part000.SparseMap.t) : Prop :=
  NoDup (JSMap.keys (Part000.SparseMap.elements m)) /\
  JSMap.zero_free (Part000.SparseMap.elements m) = true /\
  (forall k, In k (JSMap.keys (Part000.SparseMap.elements m)) ->
             0 < Part000.SparseMap.cols m /\ 0 <= k).

(** The triple [*[Symbol.iterator]] yields for a key. *)
Definition part_triple (cols : Z) (kv : Z * Z) : Z * Z * Z :=
  (fst kv / cols, Z.rem (fst kv) cols, snd kv).

(** *** The interface the two classes share

    Both files offer the same matrix: dimensions, point access, iteration
    over the stored triples, and the three operations. *)

Class Matrix (M : Type) : Type := {
  rows : M -> Z;
  cols : M -> Z;
  getElement : M -> Z -> Z -> Z;
  setElement : M -> Z -> Z -> Z -> M;
  size : M -> nat;
  triples : M -> outcome (list (Z * Z * Z));
  valid : M -> bool;
  add : M -> M -> outcome M;
  subtract : M -> M -> outcome M;
  multiply : M -> M -> outcome M
}.

#[global] Instance IndexJs_Matrix : Matrix IndexJs.SparseMatrix := {
  rows := IndexJs.rows;
  cols := IndexJs.cols;
  getElement := IndexJs.getElement;
  setElement := IndexJs.setElement;
  size := IndexJs.size;
  triples := IndexJs.entries;
  valid := IndexJs.valid;
  add := IndexJs.add;
  subtract := IndexJs.subtract;
  multiply := IndexJs.multiply
}.

#[global] Instance Part000_Matrix : Matrix Part000.SparseMatrix.t := {
  rows := Part000.SparseMatrix.rows;
  cols := Part000.SparseMatrix.cols;
  getElement := Part000.SparseMatrix.getElement;
  setElement := Part000.SparseMatrix.setElement;
  size := fun m => Part000.SparseMap.size (Part000.SparseMatrix.data m);
  triples := Part000.SparseMatrix.iterator;
  valid := fun m => Part000.SparseMap.valid (Part000.SparseMatrix.data m);
  add := Part000.SparseMatrix.add;
  subtract := Part000.SparseMatrix.subtract;
  multiply := Part000.SparseMatrix.multiply
}.

Section Statements.
Context {M : Type} `{Matrix M}.



(** The list [t] is what the matrix [m] stands for: the triples its
    iteration yields, one per coordinate, none with value zero, all at
    coordinates satisfying [dom], where [getElement] reads them. *)
Definition represents (dom : Z -> Z -> Prop) (m : M) (t : list (Z * Z * Z))
  : Prop :=
  triples m = Ret t /\
  NoDup (map fst t) /\
  JSMap.zero_free t = true /\
  (forall row col value, In (row, col, value) t -> dom row col) /\
  (forall row col, dom row col -> getElement m row col = value_at t row col).


End Statements.





(** Whether every character of a text satisfies a test. *)
Fixpoint every (p : ascii -> bool) (s : string) : bool :=
  match s with
  | EmptyString => true
  | String a s' => p a && every p s'
  end.

(** The triple a line of the element section contributes: none when the
    line does not match the element pattern. *)
Definition element_of_line (line : string) : list (Z * Z * Z) :=
  match JS.match_element line with
  | Some (row, col, value) =>
      match JS.parseInt row, JS.parseInt col, JS.parseInt value with
      | Some r, Some c, Some v => [(r, c, v)]
      | _, _, _ => []
      end
  | None => []
  end.

(** *** The matrices of the worked example

    [rows=2, cols=2] with [(0,0,1) (0,1,2) (1,0,3) (1,1,4)], and
    [rows=2, cols=2] with [(0,0,5) (1,1,6)], in each class. *)

Definition example_calls_a : list (Z * Z * Z) :=
  [(0, 0, 1); (0, 1, 2); (1, 0, 3); (1, 1, 4)].
Definition example_calls_b : list (Z * Z * Z) := [(0, 0, 5); (1, 1, 6)].

Definition index_a : IndexJs.SparseMatrix := IndexJs.build 2 2 example_calls_a.
Definition index_b : IndexJs.SparseMatrix := IndexJs.build 2 2 example_calls_b.
Definition part_a : Part000.SparseMatrix.t :=
  Part000.SparseMatrix.mk (Part000.SparseMap.build 2 2 example_calls_a).
Definition part_b : Part000.SparseMatrix.t :=
  Part000.SparseMatrix.mk (Part000.SparseMap.build 2 2 example_calls_b).

(** *** Operands of different shapes

    [rows=2, cols=2] with [(1,0,1)], and [rows=1, cols=3] with [(0,2,1)],
    in each class. *)

Definition index_square : IndexJs.SparseMatrix := IndexJs.build 2 2 [(1, 0, 1)].
Definition index_wide : IndexJs.SparseMatrix := IndexJs.build 1 3 [(0, 2, 1)].
Definition part_square : Part000.SparseMatrix.t :=
  Part000.SparseMatrix.mk (Part000.SparseMap.build 2 2 [(1, 0, 1)]).
Definition part_wide : Part000.SparseMatrix.t :=
  Part000.SparseMatrix.mk (Part000.SparseMap.build 1 3 [(0, 2, 1)]).

(** *** A matrix with one stored entry

    [rows=2, cols=2] with [(0,0,7)], in each class. *)

Definition index_seven : IndexJs.SparseMatrix := IndexJs.build 2 2 [(0, 0, 7)].
Definition part_seven : Part000.SparseMatrix.t :=
  Part000.SparseMatrix.mk (Part000.SparseMap.build 2 2 [(0, 0, 7)]).

(** *** A file with a line that does not match and a blank line *)

Definition example_file : string :=
  ("rows=2" ++ String "010" ("cols=2" ++ String "010" ("(0,0,5)" ++ String "010"
   ("(1, 2, abc)" ++ String "010" ("  " ++ String "010" ("(1, 1, -6)" ++ String "010" ""))))))%string.

(** *** Texts of matrices

    The text made of the given lines, each ended by a line break; the
    element line of a triple; and the text of a matrix: the two header
    lines, then one line per triple.  Numbers are printed in plain
    decimal, as a template literal prints an integer below [10^21] in
    absolute value. *)

Fixpoint file_text (lines : list string) : string :=
  match lines with
  | [] => EmptyString
  | line :: rest => (line ++ String "010" (file_text rest))%string
  end.

Definition element_text (e : Z * Z * Z) : string :=
  let '(row, col, value) := e in
  ("(" ++ JS.toString row ++ ", " ++ JS.toString col ++ ", "
       ++ JS.toString value ++ ")")%string.

Definition matrix_text (rows cols : Z) (t : list (Z * Z * Z)) : string :=
  file_text (("rows=" ++ JS.toString rows)%string
             :: ("cols=" ++ JS.toString cols)%string
             :: map element_text t).


(** *** Matrices without entries, and one with entries out of place

    [rows=2, cols=2] without entries, in each class; and, in
    [src/index.js], [rows=2, cols=2] after [setElement(-1, 0, 5)],
    [setElement(0, 1, 2)] and [setElement(3, 3, 4)]. *)

Definition index_empty : IndexJs.SparseMatrix := IndexJs.new 2 2.
Definition part_empty : Part000.SparseMatrix.t := Part000.SparseMatrix.new 2 2.


(** *** A file with two lines for one coordinate and a line of value zero *)


(** *** A file system for [main]

    [a.txt] and [b.txt] hold the texts of the two matrices of the worked
    example; no other file exists; every write succeeds. *)

Definition example_readFile (filename : string) : outcome string :=
  if String.eqb filename "a.txt" then Part000.SparseMatrix.saveToFile part_a
  else if String.eqb filename "b.txt" then Part000.SparseMatrix.saveToFile part_b
  else Throw "ENOENT: no such file or directory".

Definition example_writeFile (filename content : string) : outcome unit :=
  Ret tt.

(** * Facts *)

(** ** [+] and [-] as signed additions *)

Lemma add_signed (x y : Z) : x + y = x + 1 * y.
Proof. lia. Qed.

Lemma sub_signed (x y : Z) : x - y = x + -1 * y.
Proof. lia. Qed.

(** ** The insertion-ordered map *)

Section MapFacts.
Variable K : Type.
Variable eqb : K -> K -> bool.
Hypothesis eqb_eq : forall a b, eqb a b = true <-> a = b.

#[local] Abbreviation get := (JSMap.get eqb).
#[local] Abbreviation set := (JSMap.set eqb).
#[local] Abbreviation delete := (JSMap.delete eqb).
#[local] Abbreviation keys := (@JSMap.keys K Z).
#[local] Abbreviation distinct := (JSMap.distinct eqb).
#[local] Abbreviation lookup := (JSMap.lookup eqb).
#[local] Abbreviation store := (JSMap.store eqb).
#[local] Abbreviation total := (JSMap.total eqb).
#[local] Abbreviation accumulate := (JSMap.accumulate eqb).

Lemma eqb_refl k : eqb k k = true.
Proof. apply eqb_eq; reflexivity. Qed.

Lemma eqb_neq a b : a <> b -> eqb a b = false.
Proof.
  intros H; destruct (eqb a b) eqn:E; auto.
  apply eqb_eq in E; contradiction.
Qed.

Lemma eqb_case a b : {a = b /\ eqb a b = true} + {a <> b /\ eqb a b = false}.
Proof.
  destruct (eqb a b) eqn:E.
  - left; split; auto; apply eqb_eq; assumption.
  - right; split; auto; intros ->; rewrite eqb_refl in E; discriminate.
Qed.

Lemma mem_In k (l : list K) : JSMap.mem eqb k l = true <-> In k l.
Proof.
  induction l as [|a l IH]; simpl.
  - split; [discriminate | tauto].
  - rewrite orb_true_iff, IH, eqb_eq; tauto.
Qed.

Lemma distinct_NoDup (l : list K) : distinct l = true <-> NoDup l.
Proof.
  induction l as [|a l IH]; simpl.
  - split; auto using NoDup_nil.
  - rewrite andb_true_iff, negb_true_iff, IH; split.
    + intros [Hm Hd]; constructor; auto.
      rewrite <- mem_In, Hm; discriminate.
    + intros H; inversion H; subst; split; auto.
      destruct (JSMap.mem eqb a l) eqn:E; auto.
      apply mem_In in E; contradiction.
Qed.

Lemma get_In_keys (m : JSMap.t K Z) k v : get m k = Some v -> In (k, v) m.
Proof.
  induction m as [|[k' v'] m IH]; simpl; [discriminate|].
  destruct (eqb_case k' k) as [[-> E]|[N E]]; rewrite E.
  - intros [= ->]; left; reflexivity.
  - intros H; right; auto.
Qed.

Lemma get_None (m : JSMap.t K Z) k : get m k = None <-> ~ In k (keys m).
Proof.
  induction m as [|[k' v'] m IH]; simpl; [tauto|].
  destruct (eqb_case k' k) as [[-> E]|[N E]]; rewrite E.
  - split; [discriminate | intros H; exfalso; apply H; left; reflexivity].
  - rewrite IH; tauto.
Qed.


Lemma get_set_same (m : JSMap.t K Z) k v : get (set m k v) k = Some v.
Proof.
  induction m as [|[k' v'] m IH]; simpl.
  - rewrite eqb_refl; reflexivity.
  - destruct (eqb_case k' k) as [[-> E]|[N E]]; rewrite E; simpl; rewrite E; auto.
Qed.

Lemma get_set_other (m : JSMap.t K Z) k v k' :
  k <> k' -> get (set m k v) k' = get m k'.
Proof.
  intros N; induction m as [|[a b] m IH]; simpl.
  - rewrite eqb_neq; auto.
  - destruct (eqb_case a k) as [[-> E]|[Na E]]; rewrite E; simpl.
    + rewrite eqb_neq; auto.
    + rewrite IH; reflexivity.
Qed.

Lemma keys_set (m : JSMap.t K Z) k v :
  keys (set m k v) = if JSMap.mem eqb k (keys m) then keys m else keys m ++ [k].
Proof.
  induction m as [|[a b] m IH]; simpl; auto.
  destruct (eqb_case a k) as [[-> E]|[Na E]]; rewrite E; simpl; auto.
  rewrite IH; destruct (JSMap.mem eqb k (keys m)); reflexivity.
Qed.

Lemma set_absent (m : JSMap.t K Z) k v :
  ~ In k (keys m) -> set m k v = m ++ [(k, v)].
Proof.
  induction m as [|[a b] m IH]; simpl; auto.
  intros H. rewrite eqb_neq by tauto. rewrite IH by tauto. reflexivity.
Qed.

Lemma In_keys_delete (m : JSMap.t K Z) k k' :
  In k' (keys (delete m k)) -> In k' (keys m).
Proof.
  induction m as [|[a b] m IH]; simpl; auto.
  destruct (eqb a k); simpl; tauto.
Qed.

Lemma In_delete (m : JSMap.t K Z) k e : In e (delete m k) -> In e m.
Proof.
  induction m as [|[a b] m IH]; simpl; auto.
  destruct (eqb a k); simpl; tauto.
Qed.

Lemma NoDup_delete (m : JSMap.t K Z) k : NoDup (keys m) -> NoDup (keys (delete m k)).
Proof.
  induction m as [|[a b] m IH]; simpl; auto.
  intros H; inversion H; subst.
  destruct (eqb a k); simpl; auto.
  constructor; auto. intros Hin; apply H2; eapply In_keys_delete; eauto.
Qed.

Lemma NoDup_set (m : JSMap.t K Z) k v : NoDup (keys m) -> NoDup (keys (set m k v)).
Proof.
  intros H; rewrite keys_set.
  destruct (JSMap.mem eqb k (keys m)) eqn:E; auto.
  apply NoDup_app; auto.
  - repeat constructor; simpl; tauto.
  - intros a Ha [<-|[]]. apply mem_In in Ha; congruence.
Qed.

Lemma get_delete_same (m : JSMap.t K Z) k :
  NoDup (keys m) -> get (delete m k) k = None.
Proof.
  induction m as [|[a b] m IH]; simpl; auto.
  intros H; inversion H; subst.
  destruct (eqb_case a k) as [[-> E]|[Na E]]; rewrite E; simpl.
  - apply get_None; assumption.
  - rewrite E; auto.
Qed.

Lemma get_delete_other (m : JSMap.t K Z) k k' :
  k <> k' -> get (delete m k) k' = get m k'.
Proof.
  intros N; induction m as [|[a b] m IH]; simpl; auto.
  destruct (eqb_case a k) as [[-> E]|[Na E]]; rewrite E; simpl.
  - rewrite eqb_neq; auto.
  - rewrite IH; reflexivity.
Qed.
End MapFacts.

(** ** Maps to integers: [lookup], [store] and runs of updates *)

Section StoreFacts.
Variable K : Type.
Variable eqb : K -> K -> bool.
Hypothesis eqb_eq : forall a b, eqb a b = true <-> a = b.

#[local] Abbreviation keys := (@JSMap.keys K Z).
#[local] Abbreviation lookup := (JSMap.lookup eqb).
#[local] Abbreviation store := (JSMap.store eqb).
#[local] Abbreviation total := (JSMap.total eqb).
#[local] Abbreviation accumulate := (JSMap.accumulate eqb).
#[local] Abbreviation zero_free := (@JSMap.zero_free K).

Lemma lookup_store (m : JSMap.t K Z) k v k' :
  NoDup (keys m) ->
  lookup (store m k v) k' = if eqb k k' then v else lookup m k'.
Proof.
  intros Hnd. unfold JSMap.lookup, JSMap.store.
  destruct (eqb_case eqb eqb_eq k k') as [[<- E]|[N E]]; rewrite E.
  - destruct (Z.eqb_spec v 0) as [->|Hv]; simpl.
    + rewrite get_delete_same; auto.
    + rewrite get_set_same; auto.
  - destruct (v =? 0); simpl.
    + rewrite get_delete_other; auto.
    + rewrite get_set_other; auto.
Qed.

Lemma NoDup_store (m : JSMap.t K Z) k v :
  NoDup (keys m) -> NoDup (keys (store m k v)).
Proof.
  intros H; unfold JSMap.store; destruct (negb (v =? 0)).
  - apply NoDup_set; auto.
  - apply NoDup_delete; auto.
Qed.

Lemma zero_free_spec (m : JSMap.t K Z) :
  zero_free m = true <-> (forall k v, In (k, v) m -> v <> 0).
Proof.
  unfold JSMap.zero_free. rewrite forallb_forall. split.
  - intros H k v Hin. specialize (H _ Hin). simpl in H.
    apply negb_true_iff, Z.eqb_neq in H. exact H.
  - intros H [k v] Hin. simpl. apply negb_true_iff, Z.eqb_neq. eauto.
Qed.

Lemma In_set (m : JSMap.t K Z) k v e :
  In e (JSMap.set eqb m k v) -> In e m \/ e = (k, v).
Proof.
  induction m as [|[a b] m IH]; simpl.
  - intros [<-|[]]; auto.
  - destruct (eqb_case eqb eqb_eq a k) as [[-> E]|[N E]]; rewrite E; simpl.
    + intros [<-|H]; auto.
    + intros [<-|H]; auto. destruct (IH H); auto.
Qed.

Lemma zero_free_store (m : JSMap.t K Z) k v :
  zero_free m = true -> zero_free (store m k v) = true.
Proof.
  rewrite !zero_free_spec. intros H k' v' Hin. unfold JSMap.store in Hin.
  destruct (Z.eqb_spec v 0) as [->|Hv]; simpl in Hin.
  - apply In_delete in Hin. eauto.
  - apply In_set in Hin. destruct Hin as [Hin|[= -> ->]]; eauto.
Qed.






(** A list of updates with distinct keys directs to [k] what it holds
    for [k]. *)
Lemma total_lookup (us : list (K * Z)) k :
  NoDup (keys us) -> total us k = lookup us k.
Proof.
  unfold JSMap.lookup.
  induction us as [|[k' d] us IH]; simpl; auto.
  intros H; inversion H; subst.
  destruct (eqb_case eqb eqb_eq k' k) as [[-> E]|[N E]]; rewrite E; auto.
  rewrite IH by assumption.
  assert (Hn : JSMap.get eqb us k = None) by (apply get_None; assumption).
  rewrite Hn. lia.
Qed.




(** Copying a map entry by entry with [Map.set] gives the map back. *)
Lemma copy_from (l acc : JSMap.t K Z) :
  NoDup (keys (acc ++ l)) ->
  fold_left (fun m kv => JSMap.set eqb m (fst kv) (snd kv)) l acc = acc ++ l.
Proof.
  revert acc. induction l as [|[k v] l IH]; intros acc H; simpl.
  - rewrite app_nil_r; reflexivity.
  - assert (Hk : ~ In k (keys acc)).
    { unfold JSMap.keys in H. rewrite map_app in H. simpl in H.
      apply NoDup_remove_2 in H. rewrite in_app_iff in H. tauto. }
    rewrite set_absent by assumption.
    rewrite IH; rewrite <- app_assoc; simpl; auto.
Qed.

Lemma copy_all (l : JSMap.t K Z) :
  NoDup (keys l) ->
  fold_left (fun m kv => JSMap.set eqb m (fst kv) (snd kv)) l [] = l.
Proof. intros H. apply (copy_from l []). exact H. Qed.
End StoreFacts.

(** ** The keys of [src/index.js] *)

Section StringKeys.
#[local] Open Scope string_scope.

Lemma split_without (sep : ascii) (s : string) :
  occurs sep s = false -> JS.split sep s = [s].
Proof.
  induction s as [|c s IH]; simpl; auto.
  intros H. apply orb_false_iff in H. destruct H as [Hc Hs].
  rewrite Hc, IH by assumption. reflexivity.
Qed.

Lemma split_at (sep : ascii) (a b : string) :
  occurs sep a = false ->
  JS.split sep (a ++ String sep b) = a :: JS.split sep b.
Proof.
  induction a as [|c a IH]; simpl.
  - intros _. rewrite Ascii.eqb_refl. reflexivity.
  - intros H. apply orb_false_iff in H. destruct H as [Hc Hs].
    rewrite Hc, IH by assumption. reflexivity.
Qed.

Lemma uint_without_comma (d : Decimal.uint) :
  occurs "," (NilEmpty.string_of_uint d) = false.
Proof. induction d; simpl; auto. Qed.

Lemma NilZero_without_comma (d : Decimal.uint) :
  occurs "," (NilZero.string_of_uint d) = false.
Proof. destruct d; simpl; auto; apply uint_without_comma. Qed.

Lemma toString_without_comma (n : Z) : occurs "," (JS.toString n) = false.
Proof.
  unfold JS.toString. destruct n as [|p|p]; simpl; auto;
    apply NilZero_without_comma.
Qed.

(** [Number] reads back what the template literal writes. *)
Lemma Number_toString (n : Z) : JS.Number (JS.toString n) = Some n.
Proof.
  unfold JS.Number, JS.decimal, JS.toString.
  rewrite NilZero.isi.
  - simpl. rewrite DecimalZ.of_to. reflexivity.
  - destruct n; simpl; try discriminate.
    intros [= H]. revert H. apply Unsigned.to_uint_nonnil.
  - destruct n; simpl; try discriminate.
    intros [= H]. revert H. apply Unsigned.to_uint_nonnil.
Qed.

(** Splitting a key gives back the coordinate it was written for. *)
Lemma coords_key (row col : Z) :
  IndexJs.coords (IndexJs.key row col) = Some (row, col).
Proof.
  unfold IndexJs.coords, IndexJs.key.
  change ("," ++ JS.toString col) with (String "," (JS.toString col)).
  rewrite split_at by apply toString_without_comma.
  rewrite split_without by apply toString_without_comma.
  simpl. rewrite !Number_toString. reflexivity.
Qed.

Lemma key_inj (r c r' c' : Z) :
  IndexJs.key r c = IndexJs.key r' c' -> r = r' /\ c = c'.
Proof.
  intros H. apply (f_equal IndexJs.coords) in H.
  rewrite !coords_key in H. inversion H; auto.
Qed.

Lemma string_eqb_eq (a b : string) : String.eqb a b = true <-> a = b.
Proof. apply String.eqb_eq. Qed.

Lemma canonical_spec (k : string) (v : Z) :
  IndexJs.canonical (k, v) = true <->
  exists r c, IndexJs.coords k = Some (r, c) /\ IndexJs.key r c = k.
Proof.
  unfold IndexJs.canonical; simpl. split.
  - destruct (IndexJs.coords k) as [[r c]|]; [|discriminate].
    intros H. apply String.eqb_eq in H. eauto.
  - intros (r & c & -> & H). apply String.eqb_eq. exact H.
Qed.
End StringKeys.

(** ** Sums *)









(** ** Lists of triples *)

Lemma pair_eqb_eq (a b : Z * Z) : pair_eqb a b = true <-> a = b.
Proof.
  destruct a as [a1 a2], b as [b1 b2]. unfold pair_eqb; simpl.
  rewrite andb_true_iff, !Z.eqb_eq. split.
  - intros [-> ->]; reflexivity.
  - intros [= -> ->]; auto.
Qed.

Lemma Z_eqb_eq (a b : Z) : (a =? b) = true <-> a = b.
Proof. apply Z.eqb_eq. Qed.

Section Totals.
Variable K : Type.
Variable eqb : K -> K -> bool.
Hypothesis eqb_eq : forall a b, eqb a b = true <-> a = b.



(** Renaming the keys by a function that separates [k] from the other
    keys of the list keeps what is directed to [k]. *)
Lemma total_rename (K' : Type) (eqb' : K' -> K' -> bool)
      (eqb'_eq : forall a b, eqb' a b = true <-> a = b)
      (g : K -> K') (us : list (K * Z)) k :
  (forall k', In k' (map fst us) -> g k' = g k -> k' = k) ->
  JSMap.total eqb' (map (fun u => (g (fst u), snd u)) us) (g k)
  = JSMap.total eqb us k.
Proof.
  induction us as [|[k' d] us IH]; simpl; auto.
  intros H.
  rewrite IH by (intros; apply H; auto).
  destruct (eqb_case eqb eqb_eq k' k) as [[-> E]|[N E]]; rewrite E.
  - rewrite (eqb_refl eqb' eqb'_eq). reflexivity.
  - rewrite (eqb_neq eqb' eqb'_eq); auto.
Qed.
End Totals.




(** ** What a list of triples says about a matrix *)





Section Representation.
Context {M : Type} `{Matrix M}.



End Representation.

(** ** [src/index.js] *)

Section IndexFacts.
#[local] Abbreviation ikeyed := (fun u : Z * Z * Z => (index_key (fst u), snd u)).

Lemma index_key_inj (p q : Z * Z) : index_key p = index_key q -> p = q.
Proof.
  destruct p as [r c], q as [r' c']. unfold index_key; simpl.
  intros H. apply key_inj in H. destruct H; subst; reflexivity.
Qed.

Lemma index_well_formed_spec (m : IndexJs.SparseMatrix) :
  IndexJs.well_formed m = true <->
  NoDup (JSMap.keys (IndexJs.elements m)) /\
  forallb IndexJs.canonical (IndexJs.elements m) = true /\
  JSMap.zero_free (IndexJs.elements m) = true.
Proof.
  unfold IndexJs.well_formed.
  rewrite !andb_true_iff, (distinct_NoDup String.eqb string_eqb_eq). tauto.
Qed.

Lemma entries_of_canonical (l : JSMap.t string Z) :
  forallb IndexJs.canonical l = true ->
  exists t, IndexJs.entries_of l = Ret t /\ l = map ikeyed t.
Proof.
  induction l as [|[k v] l IH]; simpl.
  - exists []. auto.
  - rewrite andb_true_iff. intros [Hc Hl].
    apply canonical_spec in Hc. destruct Hc as (r & c & Hco & Hk).
    destruct (IH Hl) as (t & Ht & El).
    exists ((r, c, v) :: t). rewrite Hco, Ht. simpl. split; auto.
    unfold index_key at 1; simpl. rewrite Hk. f_equal. exact El.
Qed.

Lemma zero_free_keyed (K K' : Type) (g : K -> K') (t : list (K * Z)) :
  JSMap.zero_free (map (fun u => (g (fst u), snd u)) t) = JSMap.zero_free t.
Proof.
  unfold JSMap.zero_free. induction t as [|u t IH]; simpl; auto.
  rewrite IH. reflexivity.
Qed.

Lemma keys_keyed (K K' : Type) (g : K -> K') (t : list (K * Z)) :
  JSMap.keys (map (fun u => (g (fst u), snd u)) t) = map g (map fst t).
Proof.
  unfold JSMap.keys. rewrite !map_map. reflexivity.
Qed.

Lemma index_lookup_keyed (t : list (Z * Z * Z)) (r c : Z) :
  NoDup (map fst t) ->
  JSMap.lookup String.eqb (map ikeyed t) (IndexJs.key r c) = value_at t r c.
Proof.
  intros Hnd.
  rewrite <- (total_lookup String.eqb string_eqb_eq).
  - unfold value_at. change (IndexJs.key r c) with (index_key (r, c)).
    apply (total_rename pair_eqb pair_eqb_eq String.eqb string_eqb_eq).
    intros k' _ Hk. apply index_key_inj; assumption.
  - rewrite keys_keyed. apply Finite.Injective_map_NoDup; auto.
    intros p q. apply index_key_inj.
Qed.

(** A well-formed matrix of [src/index.js] stands for a list of triples
    and reads it at every coordinate. *)
Lemma index_represents (m : IndexJs.SparseMatrix) :
  IndexJs.well_formed m = true ->
  exists t, represents (fun _ _ => True) m t /\
            IndexJs.elements m = map ikeyed t.
Proof.
  intros Hwf. apply index_well_formed_spec in Hwf.
  destruct Hwf as (Hnd & Hcan & Hz).
  destruct (entries_of_canonical _ Hcan) as (t & Ht & El).
  assert (Hndt : NoDup (map fst t)).
  { rewrite El, keys_keyed in Hnd. apply NoDup_map_inv in Hnd. exact Hnd. }
  exists t. split; [|exact El].
  split; [exact Ht|]. split; [exact Hndt|]. split.
  { rewrite El, zero_free_keyed in Hz. exact Hz. }
  split; [auto|].
  intros r c _. simpl. unfold IndexJs.getElement.
  fold (JSMap.lookup String.eqb (IndexJs.elements m) (IndexJs.key r c)).
  rewrite El. apply index_lookup_keyed. exact Hndt.
Qed.
End IndexFacts.

Lemma forallb_keys (K : Type) (P : K -> bool) (l : list (K * Z)) :
  forallb (fun kv => P (fst kv)) l = true <->
  (forall k, In k (JSMap.keys l) -> P k = true).
Proof.
  rewrite forallb_forall. unfold JSMap.keys. split.
  - intros H k Hk. apply in_map_iff in Hk. destruct Hk as (kv & <- & Hin). auto.
  - intros H kv Hin. apply H. apply in_map. exact Hin.
Qed.

Section IndexOperations.
#[local] Abbreviation scaled := (fun (s : Z) (u : string * Z) => (fst u, s * snd u)).

Lemma index_setElement_store (m : IndexJs.SparseMatrix) (r c v : Z) :
  IndexJs.setElement m r c v =
  IndexJs.mk (IndexJs.rows m) (IndexJs.cols m)
             (JSMap.store String.eqb (IndexJs.elements m) (IndexJs.key r c) v).
Proof.
  unfold IndexJs.setElement, JSMap.store. destruct (negb (v =? 0)); reflexivity.
Qed.

Lemma index_copy_loop (l : JSMap.t string Z) (res : IndexJs.SparseMatrix) :
  for_of l IndexJs.copy_entry res =
  Ret (IndexJs.mk (IndexJs.rows res) (IndexJs.cols res)
         (fold_left (fun m kv => JSMap.set String.eqb m (fst kv) (snd kv)) l
                    (IndexJs.elements res))).
Proof.
  revert res. induction l as [|[k v] l IH]; intros res; simpl.
  - destruct res; reflexivity.
  - rewrite IH. reflexivity.
Qed.

Lemma index_combine_loop (s : Z) (op : Z -> Z -> Z) (l : JSMap.t string Z)
      (res : IndexJs.SparseMatrix) :
  (forall x y, op x y = x + s * y) ->
  forallb IndexJs.canonical l = true ->
  for_of l (IndexJs.combine_entry op) res =
  Ret (IndexJs.mk (IndexJs.rows res) (IndexJs.cols res)
         (JSMap.accumulate String.eqb (map (scaled s) l) (IndexJs.elements res))).
Proof.
  intros Hop. revert res. induction l as [|[k v] l IH]; intros res; simpl.
  - intros _. destruct res; reflexivity.
  - rewrite andb_true_iff. intros [Hc Hl].
    apply canonical_spec in Hc. destruct Hc as (r & c & Hco & Hk).
    rewrite Hco. simpl. rewrite IH by assumption.
    rewrite index_setElement_store, Hop. simpl.
    unfold JSMap.bump, IndexJs.getElement, JSMap.lookup. simpl.
    rewrite Hk. reflexivity.
Qed.

(** The two loops of [add] and [subtract], as one run of updates. *)
Lemma index_combine (s : Z) (op : Z -> Z -> Z) (a b : IndexJs.SparseMatrix) :
  (forall x y, op x y = x + s * y) ->
  IndexJs.well_formed a = true -> IndexJs.well_formed b = true ->
  (result <- for_of (IndexJs.elements a) IndexJs.copy_entry
                    (IndexJs.new (IndexJs.rows a) (IndexJs.cols a)) ;;
   for_of (IndexJs.elements b) (IndexJs.combine_entry op) result) =
  Ret (IndexJs.mk (IndexJs.rows a) (IndexJs.cols a)
         (JSMap.accumulate String.eqb (map (scaled s) (IndexJs.elements b))
                           (IndexJs.elements a))).
Proof.
  intros Hop Ha Hb. apply index_well_formed_spec in Ha, Hb.
  destruct Ha as (Hnda & _), Hb as (_ & Hcb & _).
  rewrite index_copy_loop. simpl.
  rewrite (index_combine_loop s op) by assumption. simpl.
  rewrite (copy_all String.eqb string_eqb_eq) by assumption. reflexivity.
Qed.



End IndexOperations.

(** ** [src/unnamed/part_000] *)

Unset Implicit Arguments.

Section PartKeys.
#[local] Abbreviation pkeyed :=
  (fun (n : Z) (u : Z * Z * Z) => (part_key n (fst u), snd u)).

Lemma in_range_spec (R C r c : Z) :
  in_range R C r c = true <-> 0 <= r < R /\ 0 <= c < C.
Proof.
  unfold in_range. rewrite !andb_true_iff, !Z.leb_le, !Z.ltb_lt. lia.
Qed.

(** [Math.floor(key / cols)] and [key % cols] split a key that is not
    negative into the coordinate it was made from. *)
Lemma part_key_of_triple (n k : Z) :
  0 < n -> 0 <= k -> k / n * n + Z.rem k n = k.
Proof.
  intros Hn Hk. rewrite Z.rem_mod_nonneg by lia.
  pose proof (Z.div_mod k n). lia.
Qed.





Lemma part_valid_spec (m : Part000.SparseMap.t) :
  Part000.SparseMap.valid m = true <->
  NoDup (JSMap.keys (Part000.SparseMap.elements m)) /\
  JSMap.zero_free (Part000.SparseMap.elements m) = true /\
  (forall k, In k (JSMap.keys (Part000.SparseMap.elements m)) ->
             0 <= k / Part000.SparseMap.cols m < Part000.SparseMap.rows m /\
             0 <= Z.rem k (Part000.SparseMap.cols m) < Part000.SparseMap.cols m).
Proof.
  unfold Part000.SparseMap.valid, Part000.SparseMap.well_formed,
    Part000.SparseMap.in_bounds.
  rewrite !andb_true_iff, (distinct_NoDup Z.eqb Z_eqb_eq).
  rewrite (forallb_keys (fun k => in_range (Part000.SparseMap.rows m)
                                           (Part000.SparseMap.cols m)
                                           (k / Part000.SparseMap.cols m)
                                           (Z.rem k (Part000.SparseMap.cols m)))).
  split.
  - intros [[H1 H2] H3]. repeat split; auto; apply H3 in H; apply in_range_spec in H; lia.
  - intros (H1 & H2 & H3). repeat split; auto.
    intros k Hk. apply in_range_spec. apply H3. exact Hk.
Qed.

(** A key whose coordinate is within the dimensions is not negative. *)
Lemma part_in_bounds_key (n R k : Z) :
  0 <= k / n < R -> 0 <= Z.rem k n < n -> 0 < n /\ 0 <= k < R * n.
Proof.
  intros Hr Hc. assert (Hn : 0 < n) by lia. split; auto.
  assert (Hk : 0 <= k).
  { destruct (Z_lt_le_dec k 0) as [Hneg|]; auto.
    assert (k / n < 0) by (apply Z.div_lt_upper_bound; lia). lia. }
  rewrite Z.rem_mod_nonneg in Hc by lia.
  pose proof (Z.div_mod k n). split; auto. nia.
Qed.

Lemma part_valid_proper (m : Part000.SparseMap.t) :
  Part000.SparseMap.valid m = true -> part_proper m.
Proof.
  intros H. apply part_valid_spec in H. destruct H as (H1 & H2 & H3).
  split; [|split]; auto.
  intros k Hk. destruct (H3 k Hk) as [Hr Hc].
  destruct (part_in_bounds_key _ _ _ Hr Hc). lia.
Qed.

Lemma part_iterator (m : Part000.SparseMap.t) :
  (forall k, In k (JSMap.keys (Part000.SparseMap.elements m)) ->
             Part000.SparseMap.cols m <> 0) ->
  Part000.SparseMap.iterator m =
  Ret (map (part_triple (Part000.SparseMap.cols m)) (Part000.SparseMap.elements m)).
Proof.
  unfold Part000.SparseMap.iterator.
  induction (Part000.SparseMap.elements m) as [|[k v] l IH]; simpl; auto.
  intros H. assert (Hn : Part000.SparseMap.cols m <> 0) by (apply (H k); auto).
  apply Z.eqb_neq in Hn. rewrite Hn. simpl.
  rewrite IH by (intros; apply (H k0); auto). reflexivity.
Qed.

Lemma part_proper_iterator (m : Part000.SparseMap.t) :
  part_proper m ->
  Part000.SparseMap.iterator m =
  Ret (map (part_triple (Part000.SparseMap.cols m)) (Part000.SparseMap.elements m)).
Proof.
  intros (_ & _ & H). apply part_iterator. intros k Hk. apply H in Hk. lia.
Qed.



End PartKeys.

Section PartOperations.
#[local] Abbreviation pkeyed :=
  (fun (n : Z) (u : Z * Z * Z) => (part_key n (fst u), snd u)).
#[local] Abbreviation wrap :=
  (fun (R n : Z) (l : JSMap.t Z Z) =>
     Part000.SparseMatrix.mk (Part000.SparseMap.mk R n l)).
#[local] Abbreviation prows := Part000.SparseMatrix.rows.
#[local] Abbreviation pcols := Part000.SparseMatrix.cols.
#[local] Abbreviation pelements :=
  (fun m => Part000.SparseMap.elements (Part000.SparseMatrix.data m)).


Lemma part_setElement_store (m : Part000.SparseMatrix.t) (r c v : Z) :
  Part000.SparseMatrix.setElement m r c v =
  wrap (prows m) (pcols m)
       (JSMap.store Z.eqb (pelements m) (r * pcols m + c) v).
Proof.
  unfold Part000.SparseMatrix.setElement, Part000.SparseMap.set,
    Part000.SparseMap.getKey, JSMap.store.
  destruct (negb (v =? 0)); reflexivity.
Qed.

(** The first loop of [add] and [subtract] copies a proper map. *)
Lemma part_copy_loop (R n : Z) (l acc : JSMap.t Z Z) :
  (forall k, In k (JSMap.keys l) -> 0 < n /\ 0 <= k) ->
  JSMap.zero_free l = true ->
  for_of (map (part_triple n) l) Part000.SparseMatrix.set_entry (wrap R n acc) =
  Ret (wrap R n (fold_left (fun m kv => JSMap.set Z.eqb m (fst kv) (snd kv)) l acc)).
Proof.
  revert acc. induction l as [|[k v] l IH]; intros acc Hk Hz; simpl; auto.
  simpl in Hz. apply andb_true_iff in Hz. destruct Hz as [Hv Hz]. simpl in Hv.
  rewrite part_setElement_store. simpl.
  destruct (Hk k) as [Hn Hk0]; [left; reflexivity|].
  rewrite part_key_of_triple by assumption.
  unfold JSMap.store. rewrite Hv.
  apply IH; auto. intros k' Hk'. apply Hk. right. exact Hk'.
Qed.

(** The second loop of [add] and [subtract], as one run of updates. *)
Lemma part_combine_loop (s : Z) (op : Z -> Z -> Z) (R n : Z)
      (t : list (Z * Z * Z)) (acc : JSMap.t Z Z) :
  (forall x y, op x y = x + s * y) ->
  for_of t (Part000.SparseMatrix.combine_entry op) (wrap R n acc) =
  Ret (wrap R n (JSMap.accumulate Z.eqb
                   (map (fun e => (part_key n (fst e), s * snd e)) t) acc)).
Proof.
  intros Hop. revert acc.
  induction t as [|[[r c] v] t IH]; intros acc; simpl; auto.
  rewrite part_setElement_store, Hop. simpl. rewrite IH. reflexivity.
Qed.

Lemma part_combine (s : Z) (op : Z -> Z -> Z) (a b : Part000.SparseMatrix.t) :
  (forall x y, op x y = x + s * y) ->
  part_proper (Part000.SparseMatrix.data a) ->
  part_proper (Part000.SparseMatrix.data b) ->
  (mine <- Part000.SparseMap.iterator (Part000.SparseMatrix.data a) ;;
   result <- for_of mine Part000.SparseMatrix.set_entry
                    (Part000.SparseMatrix.new (prows a) (pcols a)) ;;
   theirs <- Part000.SparseMap.iterator (Part000.SparseMatrix.data b) ;;
   for_of theirs (Part000.SparseMatrix.combine_entry op) result) =
  Ret (wrap (prows a) (pcols a)
         (JSMap.accumulate Z.eqb
            (map (fun e => (part_key (pcols a) (fst e), s * snd e))
                 (map (part_triple (pcols b)) (pelements b)))
            (pelements a))).
Proof.
  intros Hop Pa Pb.
  rewrite (part_proper_iterator _ Pa), (part_proper_iterator _ Pb). simpl.
  destruct Pa as (Hnda & Hza & Hka).
  unfold Part000.SparseMatrix.new, Part000.SparseMap.new.
  rewrite part_copy_loop by assumption. simpl.
  rewrite (part_combine_loop s op) by exact Hop.
  rewrite (copy_all Z.eqb Z_eqb_eq) by assumption. reflexivity.
Qed.
End PartOperations.

(** ** The result of [add] and [subtract] *)





Section IndexCombine.
Variable s : Z.
Variables a b : IndexJs.SparseMatrix.
Hypothesis wf_a : IndexJs.well_formed a = true.
Hypothesis wf_b : IndexJs.well_formed b = true.

#[local] Abbreviation icombined :=
  (IndexJs.mk (IndexJs.rows a) (IndexJs.cols a)
     (JSMap.accumulate String.eqb
        (map (fun u => (fst u, s * snd u)) (IndexJs.elements b))
        (IndexJs.elements a))).


End IndexCombine.

Section PartCombine.
Variable s : Z.
Variables a b : Part000.SparseMatrix.t.
Hypothesis proper_a : part_proper (Part000.SparseMatrix.data a).
Hypothesis proper_b : part_proper (Part000.SparseMatrix.data b).

#[local] Abbreviation na := (Part000.SparseMatrix.cols a).
#[local] Abbreviation nb := (Part000.SparseMatrix.cols b).
#[local] Abbreviation ela :=
  (Part000.SparseMap.elements (Part000.SparseMatrix.data a)).
#[local] Abbreviation elb :=
  (Part000.SparseMap.elements (Part000.SparseMatrix.data b)).
#[local] Abbreviation pcombined :=
  (Part000.SparseMatrix.mk
     (Part000.SparseMap.mk (Part000.SparseMatrix.rows a) na
        (JSMap.accumulate Z.eqb
           (map (fun e => (part_key na (fst e), s * snd e))
                (map (part_triple nb) elb))
           ela))).

(** Every triple of [b] lies in a column that [a] has. *)
Hypothesis fit : forall r c v, In (r, c, v) (map (part_triple nb) elb) -> c < na.




End PartCombine.

Lemma index_valid_spec (m : IndexJs.SparseMatrix) :
  valid m = true <->
  IndexJs.well_formed m = true /\ IndexJs.in_bounds m = true.
Proof. simpl. unfold IndexJs.valid. apply andb_true_iff. Qed.



Section PartSameCols.
Variable s : Z.
Variables a b : Part000.SparseMatrix.t.
Hypothesis proper_a : part_proper (Part000.SparseMatrix.data a).
Hypothesis proper_b : part_proper (Part000.SparseMatrix.data b).
Hypothesis same_cols : Part000.SparseMatrix.cols a = Part000.SparseMatrix.cols b.

#[local] Abbreviation n := (Part000.SparseMatrix.cols a).
#[local] Abbreviation ela' :=
  (Part000.SparseMap.elements (Part000.SparseMatrix.data a)).
#[local] Abbreviation elb' :=
  (Part000.SparseMap.elements (Part000.SparseMatrix.data b)).
#[local] Abbreviation psame :=
  (Part000.SparseMatrix.mk
     (Part000.SparseMap.mk (Part000.SparseMatrix.rows a) n
        (JSMap.accumulate Z.eqb
           (map (fun e => (part_key n (fst e), s * snd e))
                (map (part_triple (Part000.SparseMatrix.cols b)) elb'))
           ela'))).




End PartSameCols.


(** ** The two loops, packaged *)





(** ** The loops of [multiply] *)

Lemma accumulate_app (K : Type) (eqb : K -> K -> bool)
      (us vs : list (K * Z)) (m : JSMap.t K Z) :
  JSMap.accumulate eqb (us ++ vs) m =
  JSMap.accumulate eqb vs (JSMap.accumulate eqb us m).
Proof. unfold JSMap.accumulate. apply fold_left_app. Qed.



Section IndexMultiply.
#[local] Abbreviation ikeyed' := (fun u : Z * Z * Z => (index_key (fst u), snd u)).

Lemma index_inner_loop (i k v1 : Z) (tb : list (Z * Z * Z))
      (res : IndexJs.SparseMatrix) :
  for_of (map ikeyed' tb) (IndexJs.multiply_inner i k v1) res =
  Ret (IndexJs.mk (IndexJs.rows res) (IndexJs.cols res)
         (JSMap.accumulate String.eqb
            (map ikeyed' (products_with i k v1 tb)) (IndexJs.elements res))).
Proof.
  revert res. induction tb as [|[[row j] v2] tb IH]; intros res; simpl.
  - destruct res; reflexivity.
  - unfold index_key at 1; simpl. rewrite coords_key.
    unfold products_with; simpl. fold (products_with i k v1 tb).
    destruct (k =? row); simpl.
    + rewrite IH. rewrite index_setElement_store. reflexivity.
    + apply IH.
Qed.

Lemma index_outer_loop (b : IndexJs.SparseMatrix) (ta tb : list (Z * Z * Z))
      (res : IndexJs.SparseMatrix) :
  IndexJs.elements b = map ikeyed' tb ->
  for_of (map ikeyed' ta) (IndexJs.multiply_outer b) res =
  Ret (IndexJs.mk (IndexJs.rows res) (IndexJs.cols res)
         (JSMap.accumulate String.eqb
            (map ikeyed' (products ta tb)) (IndexJs.elements res))).
Proof.
  intros Eb. revert res.
  induction ta as [|[[i k] v1] ta IH]; intros res; simpl.
  - destruct res; reflexivity.
  - unfold index_key at 1; simpl. rewrite coords_key.
    rewrite Eb, index_inner_loop. simpl. rewrite IH. simpl.
    unfold products; simpl. fold (products ta tb).
    rewrite map_app, accumulate_app. reflexivity.
Qed.

Lemma index_multiply_elements (a b : IndexJs.SparseMatrix)
      (ta tb : list (Z * Z * Z)) :
  IndexJs.elements a = map ikeyed' ta -> IndexJs.elements b = map ikeyed' tb ->
  IndexJs.cols a = IndexJs.rows b ->
  IndexJs.multiply a b =
  Ret (IndexJs.mk (IndexJs.rows a) (IndexJs.cols b)
         (JSMap.accumulate String.eqb (map ikeyed' (products ta tb)) [])).
Proof.
  intros Ea Eb Hdim. unfold IndexJs.multiply.
  apply Z.eqb_eq in Hdim. rewrite Hdim. simpl.
  rewrite Ea. rewrite (index_outer_loop b ta tb _ Eb). reflexivity.
Qed.
End IndexMultiply.

Section PartMultiply.
#[local] Abbreviation pkeyed' :=
  (fun (n : Z) (u : Z * Z * Z) => (part_key n (fst u), snd u)).
#[local] Abbreviation wrap' :=
  (fun (R n : Z) (l : JSMap.t Z Z) =>
     Part000.SparseMatrix.mk (Part000.SparseMap.mk R n l)).

Lemma part_inner_loop (i k v1 R n : Z) (tb : list (Z * Z * Z))
      (acc : JSMap.t Z Z) :
  for_of tb (Part000.SparseMatrix.multiply_inner i k v1) (wrap' R n acc) =
  Ret (wrap' R n (JSMap.accumulate Z.eqb
                    (map (pkeyed' n) (products_with i k v1 tb)) acc)).
Proof.
  revert acc. induction tb as [|[[row j] v2] tb IH]; intros acc; simpl; auto.
  unfold products_with; simpl. fold (products_with i k v1 tb).
  destruct (k =? row); simpl.
  - rewrite part_setElement_store. simpl. rewrite IH. reflexivity.
  - apply IH.
Qed.

Lemma part_outer_loop (b : Part000.SparseMatrix.t) (ta tb : list (Z * Z * Z))
      (R n : Z) (acc : JSMap.t Z Z) :
  Part000.SparseMap.iterator (Part000.SparseMatrix.data b) = Ret tb ->
  for_of ta (Part000.SparseMatrix.multiply_outer b) (wrap' R n acc) =
  Ret (wrap' R n (JSMap.accumulate Z.eqb (map (pkeyed' n) (products ta tb)) acc)).
Proof.
  intros Eb. revert acc.
  induction ta as [|[[i k] v1] ta IH]; intros acc; simpl; auto.
  rewrite Eb. simpl. rewrite part_inner_loop. simpl. rewrite IH.
  unfold products; simpl. fold (products ta tb).
  rewrite map_app, accumulate_app. reflexivity.
Qed.

Lemma part_multiply_elements (a b : Part000.SparseMatrix.t)
      (ta tb : list (Z * Z * Z)) :
  Part000.SparseMap.iterator (Part000.SparseMatrix.data a) = Ret ta ->
  Part000.SparseMap.iterator (Part000.SparseMatrix.data b) = Ret tb ->
  Part000.SparseMatrix.cols a = Part000.SparseMatrix.rows b ->
  Part000.SparseMatrix.multiply a b =
  Ret (wrap' (Part000.SparseMatrix.rows a) (Part000.SparseMatrix.cols b)
         (JSMap.accumulate Z.eqb
            (map (pkeyed' (Part000.SparseMatrix.cols b)) (products ta tb)) [])).
Proof.
  intros Ea Eb Hdim. unfold Part000.SparseMatrix.multiply.
  apply Z.eqb_eq in Hdim. rewrite Hdim. simpl.
  rewrite Ea. simpl.
  unfold Part000.SparseMatrix.new, Part000.SparseMap.new.
  rewrite (part_outer_loop b ta tb _ _ _ Eb). reflexivity.
Qed.
End PartMultiply.

(** ** The result of [multiply] *)






(** * The properties of the specification *)







(** ** The two files side by side *)







(** ** [add] and [subtract] on operands of any shape *)

Lemma index_combine_returns (s : Z) (op : Z -> Z -> Z)
      (a b : IndexJs.SparseMatrix) :
  (forall x y, op x y = x + s * y) ->
  valid a = true -> valid b = true ->
  exists c,
    (result <- for_of (IndexJs.elements a) IndexJs.copy_entry
                      (IndexJs.new (IndexJs.rows a) (IndexJs.cols a)) ;;
     for_of (IndexJs.elements b) (IndexJs.combine_entry op) result) = Ret c /\
    rows c = rows a /\ cols c = cols a.
Proof.
  intros Hop Va Vb. apply index_valid_spec in Va, Vb.
  destruct Va as [Wa _], Vb as [Wb _].
  rewrite (index_combine s op) by assumption. eexists. split; [reflexivity|].
  split; reflexivity.
Qed.

Lemma part_combine_returns (s : Z) (op : Z -> Z -> Z)
      (a b : Part000.SparseMatrix.t) :
  (forall x y, op x y = x + s * y) ->
  valid a = true -> valid b = true ->
  exists c,
    (mine <- Part000.SparseMap.iterator (Part000.SparseMatrix.data a) ;;
     result <- for_of mine Part000.SparseMatrix.set_entry
                      (Part000.SparseMatrix.new (Part000.SparseMatrix.rows a)
                                                (Part000.SparseMatrix.cols a)) ;;
     theirs <- Part000.SparseMap.iterator (Part000.SparseMatrix.data b) ;;
     for_of theirs (Part000.SparseMatrix.combine_entry op) result) = Ret c /\
    rows c = rows a /\ cols c = cols a.
Proof.
  intros Hop Va Vb.
  pose proof (part_valid_proper _ Va) as Pa.
  pose proof (part_valid_proper _ Vb) as Pb.
  rewrite (part_combine s op) by assumption. eexists. split; [reflexivity|].
  split; reflexivity.
Qed.

(** C3, in the form the code satisfies.
    [add] and [subtract] compare no dimensions: on valid
    operands of any shapes, matching or not, they throw nothing and return
    a matrix with the dimensions of the first operand. *)
Theorem add_subtract_accept_any_shape
        (a b : IndexJs.SparseMatrix) (a' b' : Part000.SparseMatrix.t) :
  valid a = true -> valid b = true -> valid a' = true -> valid b' = true ->
  (exists c, add a b = Ret c /\ rows c = rows a /\ cols c = cols a) /\
  (exists c, subtract a b = Ret c /\ rows c = rows a /\ cols c = cols a) /\
  (exists c, add a' b' = Ret c /\ rows c = rows a' /\ cols c = cols a') /\
  (exists c, subtract a' b' = Ret c /\ rows c = rows a' /\ cols c = cols a').
Proof.
  intros Va Vb Va' Vb'.
  split; [exact (index_combine_returns 1 Z.add a b add_signed Va Vb)|].
  split; [exact (index_combine_returns (-1) Z.sub a b sub_signed Va Vb)|].
  split; [exact (part_combine_returns 1 Z.add a' b' add_signed Va' Vb')|].
  exact (part_combine_returns (-1) Z.sub a' b' sub_signed Va' Vb').
Qed.

Lemma add_subtract_accept_any_shape_witness :
  (exists c, add index_square index_wide = Ret c /\
             rows c = rows index_square /\ cols c = cols index_square) /\
  (exists c, subtract index_square index_wide = Ret c /\
             rows c = rows index_square /\ cols c = cols index_square) /\
  (exists c, add part_square part_wide = Ret c /\
             rows c = rows part_square /\ cols c = cols part_square) /\
  (exists c, subtract part_square part_wide = Ret c /\
             rows c = rows part_square /\ cols c = cols part_square).
Proof.
  apply (add_subtract_accept_any_shape index_square index_wide
                                       part_square part_wide);
    reflexivity.
Defined.

(** C3 as the specification words it does not hold:
    the 2x2 and the 1x3 operand differ in rows and
    in columns, and [add] and [subtract] of both files return a matrix. *)
Lemma mismatched_add_returns :
  rows index_square <> rows index_wide /\
  cols index_square <> cols index_wide /\
  rows part_square <> rows part_wide /\
  cols part_square <> cols part_wide /\
  add index_square index_wide =
    Ret (IndexJs.mk 2 2 [("1,0"%string, 1); ("0,2"%string, 1)]) /\
  subtract index_square index_wide =
    Ret (IndexJs.mk 2 2 [("1,0"%string, 1); ("0,2"%string, -1)]) /\
  add part_square part_wide =
    Ret (Part000.SparseMatrix.mk (Part000.SparseMap.mk 2 2 [(2, 2)])) /\
  subtract part_square part_wide =
    Ret (Part000.SparseMatrix.mk (Part000.SparseMap.mk 2 2 [])).
Proof.
  repeat split; try reflexivity; vm_compute; discriminate.
Qed.

(** ** [multiply] over the heap *)

Section HeapFacts.
Variable Obj : Type.

Lemma nth_error_last (h : heap Obj) (o : Obj) :
  nth_error (h ++ [o]) (List.length h) = Some o.
Proof. induction h as [|x h IH]; simpl; auto. Qed.

Lemma nth_error_before (h : heap Obj) (o : Obj) (r : ref) (x : Obj) :
  nth_error h r = Some x -> nth_error (h ++ [o]) r = Some x.
Proof.
  intros H. rewrite nth_error_app1; auto.
  apply nth_error_Some. congruence.
Qed.

Lemma replace_nth_last (h : heap Obj) (o o' : Obj) :
  replace_nth (h ++ [o]) (List.length h) o' = h ++ [o'].
Proof. induction h as [|x h IH]; simpl; auto. rewrite IH. reflexivity. Qed.

Lemma deref_last (h : heap Obj) (o : Obj) :
  deref (List.length h) (h ++ [o]) = (Ret o, h ++ [o]).
Proof. unfold deref. rewrite nth_error_last. reflexivity. Qed.

Lemma deref_before (h : heap Obj) (o : Obj) (r : ref) (x : Obj) :
  nth_error h r = Some x -> deref r (h ++ [o]) = (Ret x, h ++ [o]).
Proof.
  intros H. unfold deref. rewrite (nth_error_before h o r x H). reflexivity.
Qed.
End HeapFacts.

Section IndexHeap.
Variable h : heap IndexJs.SparseMatrix.

(** The inner loop over the heap does to the object at the fresh address
    what the loop over the value does, and touches nothing else. *)
Lemma index_inner_st (i k v1 : Z) (l : JSMap.t string Z)
      (r r' : IndexJs.SparseMatrix) :
  for_of l (IndexJs.multiply_inner i k v1) r = Ret r' ->
  pfor l (IndexJs.multiply_inner_st (List.length h) i k v1) (h ++ [r])
  = (Ret tt, h ++ [r']).
Proof.
  revert r. induction l as [|[key2 v2] l IH]; intros r; simpl.
  - intros [= ->]. reflexivity.
  - unfold pbind at 1.
    destruct (IndexJs.coords key2) as [[row j]|]; [|discriminate].
    destruct (k =? row).
    + simpl. intros Hl.
      unfold IndexJs.getElement_st, IndexJs.setElement_st, pbind, pret, assign.
      rewrite !deref_last. rewrite replace_nth_last. apply IH. exact Hl.
    + simpl. intros Hl. unfold pret. apply IH. exact Hl.
Qed.

Lemma index_outer_st (other : ref) (b : IndexJs.SparseMatrix)
      (l : JSMap.t string Z) (r r' : IndexJs.SparseMatrix) :
  nth_error h other = Some b ->
  for_of l (IndexJs.multiply_outer b) r = Ret r' ->
  pfor l (IndexJs.multiply_outer_st (List.length h) other) (h ++ [r])
  = (Ret tt, h ++ [r']).
Proof.
  intros Hb. revert r. induction l as [|[key1 v1] l IH]; intros r; simpl.
  - intros [= ->]. reflexivity.
  - unfold pbind at 1.
    destruct (IndexJs.coords key1) as [[i k]|]; [|discriminate].
    unfold pbind at 1. rewrite (deref_before _ h r other b Hb).
    destruct (for_of (IndexJs.elements b) (IndexJs.multiply_inner i k v1) r)
      as [r1| |] eqn:E; simpl; try discriminate.
    intros Hl. rewrite (index_inner_st i k v1 _ r r1 E). apply IH. exact Hl.
Qed.

(** When [multiply] returns, the heap has grown by the result and the
    objects it held are as they were. *)
Lemma index_multiply_st_returns (this other : ref)
      (a b c : IndexJs.SparseMatrix) :
  nth_error h this = Some a -> nth_error h other = Some b ->
  IndexJs.multiply a b = Ret c ->
  IndexJs.multiply_st this other h = (Ret (List.length h), h ++ [c]).
Proof.
  intros Ha Hb. unfold IndexJs.multiply, IndexJs.multiply_st, pbind, deref, alloc.
  rewrite Ha, Hb.
  destruct (negb (IndexJs.cols a =? IndexJs.rows b)); [discriminate|].
  intros Hc. rewrite (index_outer_st other b _ _ c Hb Hc). reflexivity.
Qed.

Lemma index_multiply_st_throws (this other : ref) (a b : IndexJs.SparseMatrix) :
  nth_error h this = Some a -> nth_error h other = Some b ->
  IndexJs.cols a <> IndexJs.rows b ->
  IndexJs.multiply_st this other h = (Throw IndexJs.dimension_message, h).
Proof.
  intros Ha Hb Hdim. unfold IndexJs.multiply_st, pbind, deref.
  rewrite Ha, Hb. apply Z.eqb_neq in Hdim. rewrite Hdim. reflexivity.
Qed.
End IndexHeap.

Section PartHeap.
Variable h : heap Part000.SparseMap.t.

Lemma part_inner_st (i k v1 : Z) (l : list (Z * Z * Z))
      (r r' : Part000.SparseMap.t) :
  for_of l (Part000.SparseMatrix.multiply_inner i k v1)
         (Part000.SparseMatrix.mk r) = Ret (Part000.SparseMatrix.mk r') ->
  pfor l (Part000.SparseMatrix.multiply_inner_st (List.length h) i k v1)
       (h ++ [r])
  = (Ret tt, h ++ [r']).
Proof.
  revert r. induction l as [|[[row j] v2] l IH]; intros r; simpl.
  - intros [= ->]. reflexivity.
  - unfold pbind at 1. destruct (k =? row).
    + simpl. intros Hl.
      unfold Part000.SparseMatrix.getElement_st, Part000.SparseMatrix.setElement_st,
        pbind, pret, assign.
      rewrite !deref_last. rewrite replace_nth_last. apply IH. exact Hl.
    + simpl. intros Hl. unfold pret. apply IH. exact Hl.
Qed.

Lemma part_outer_st (other : ref) (b : Part000.SparseMap.t)
      (l : list (Z * Z * Z)) (r r' : Part000.SparseMap.t) :
  nth_error h other = Some b ->
  for_of l (Part000.SparseMatrix.multiply_outer (Part000.SparseMatrix.mk b))
         (Part000.SparseMatrix.mk r) = Ret (Part000.SparseMatrix.mk r') ->
  pfor l (Part000.SparseMatrix.multiply_outer_st (List.length h) other)
       (h ++ [r])
  = (Ret tt, h ++ [r']).
Proof.
  intros Hb. revert r. induction l as [|[[i k] v1] l IH]; intros r; simpl.
  - intros [= ->]. reflexivity.
  - unfold Part000.SparseMatrix.iterator_st, Part000.SparseMatrix.lift, pbind.
    rewrite (deref_before _ h r other b Hb).
    destruct (Part000.SparseMap.iterator b) as [theirs| |]; simpl;
      try discriminate.
    destruct (for_of theirs (Part000.SparseMatrix.multiply_inner i k v1)
                     (Part000.SparseMatrix.mk r))
      as [[r1]| |] eqn:E; simpl; try discriminate.
    intros Hl. rewrite (part_inner_st i k v1 _ r r1 E). apply IH. exact Hl.
Qed.

Lemma part_multiply_st_returns (this other : ref)
      (a b c : Part000.SparseMap.t) :
  nth_error h this = Some a -> nth_error h other = Some b ->
  Part000.SparseMatrix.multiply (Part000.SparseMatrix.mk a)
                                (Part000.SparseMatrix.mk b)
  = Ret (Part000.SparseMatrix.mk c) ->
  Part000.SparseMatrix.multiply_st this other h
  = (Ret (List.length h), h ++ [c]).
Proof.
  intros Ha Hb.
  unfold Part000.SparseMatrix.multiply, Part000.SparseMatrix.multiply_st,
    Part000.SparseMatrix.iterator_st, Part000.SparseMatrix.lift,
    pbind, deref, alloc.
  rewrite Ha, Hb.
  unfold Part000.SparseMatrix.cols, Part000.SparseMatrix.rows.
  cbn [Part000.SparseMatrix.data].
  destruct (negb (Part000.SparseMap.cols a =? Part000.SparseMap.rows b));
    [discriminate|].
  rewrite (nth_error_before _ h _ this a Ha).
  destruct (Part000.SparseMap.iterator a) as [mine| |]; simpl; try discriminate.
  intros Hc. unfold Part000.SparseMatrix.new in Hc.
  rewrite (part_outer_st other b _ _ c Hb Hc). reflexivity.
Qed.

Lemma part_multiply_st_throws (this other : ref) (a b : Part000.SparseMap.t) :
  nth_error h this = Some a -> nth_error h other = Some b ->
  Part000.SparseMap.cols a <> Part000.SparseMap.rows b ->
  Part000.SparseMatrix.multiply_st this other h
  = (Throw Part000.SparseMatrix.dimension_message, h).
Proof.
  intros Ha Hb Hdim. unfold Part000.SparseMatrix.multiply_st, pbind, deref.
  rewrite Ha, Hb. apply Z.eqb_neq in Hdim. rewrite Hdim. reflexivity.
Qed.
End PartHeap.

(** C4.  When [a.cols] differs from [b.rows], [multiply] throws its
    dimension error in either file and returns no matrix; run over a heap
    holding the operands, it leaves the heap exactly as it was: neither
    operand has changed and no result object exists. *)
Theorem multiply_rejects_mismatch
        (h : heap IndexJs.SparseMatrix) (this other : ref)
        (a b : IndexJs.SparseMatrix)
        (h' : heap Part000.SparseMap.t) (this' other' : ref)
        (a' b' : Part000.SparseMap.t) :
  nth_error h this = Some a -> nth_error h other = Some b ->
  IndexJs.cols a <> IndexJs.rows b ->
  nth_error h' this' = Some a' -> nth_error h' other' = Some b' ->
  Part000.SparseMap.cols a' <> Part000.SparseMap.rows b' ->
  IndexJs.multiply a b = Throw IndexJs.dimension_message /\
  IndexJs.multiply_st this other h = (Throw IndexJs.dimension_message, h) /\
  Part000.SparseMatrix.multiply (Part000.SparseMatrix.mk a')
                                (Part000.SparseMatrix.mk b')
  = Throw Part000.SparseMatrix.dimension_message /\
  Part000.SparseMatrix.multiply_st this' other' h'
  = (Throw Part000.SparseMatrix.dimension_message, h').
Proof.
  intros Ha Hb Hdim Ha' Hb' Hdim'.
  split; [|split; [|split]].
  - unfold IndexJs.multiply. apply Z.eqb_neq in Hdim. rewrite Hdim. reflexivity.
  - apply (index_multiply_st_throws h this other a b); assumption.
  - unfold Part000.SparseMatrix.multiply, Part000.SparseMatrix.cols,
      Part000.SparseMatrix.rows. simpl.
    apply Z.eqb_neq in Hdim'. rewrite Hdim'. reflexivity.
  - apply (part_multiply_st_throws h' this' other' a' b'); assumption.
Qed.

Lemma multiply_rejects_mismatch_witness :
  IndexJs.multiply index_square index_wide = Throw IndexJs.dimension_message /\
  IndexJs.multiply_st 0%nat 1%nat [index_square; index_wide]
  = (Throw IndexJs.dimension_message, [index_square; index_wide]) /\
  Part000.SparseMatrix.multiply part_square part_wide
  = Throw Part000.SparseMatrix.dimension_message /\
  Part000.SparseMatrix.multiply_st 0%nat 1%nat
    [Part000.SparseMatrix.data part_square; Part000.SparseMatrix.data part_wide]
  = (Throw Part000.SparseMatrix.dimension_message,
     [Part000.SparseMatrix.data part_square; Part000.SparseMatrix.data part_wide]).
Proof.
  apply (multiply_rejects_mismatch
           [index_square; index_wide] 0%nat 1%nat index_square index_wide
           [Part000.SparseMatrix.data part_square;
            Part000.SparseMatrix.data part_wide] 0%nat 1%nat
           (Part000.SparseMatrix.data part_square)
           (Part000.SparseMatrix.data part_wide));
    try reflexivity; vm_compute; discriminate.
Defined.

(** ** [setElement] and the number of entries *)

Section SizeFacts.
Variable K : Type.
Variable eqb : K -> K -> bool.
Hypothesis eqb_eq : forall a b, eqb a b = true <-> a = b.

Lemma size_set (m : JSMap.t K Z) (k : K) (v : Z) :
  JSMap.size (JSMap.set eqb m k v) =
  match JSMap.get eqb m k with
  | Some _ => JSMap.size m
  | None => S (JSMap.size m)
  end.
Proof.
  unfold JSMap.size. induction m as [|[k' v'] m IH]; simpl; auto.
  destruct (eqb k' k); simpl; auto.
  rewrite IH. destruct (JSMap.get eqb m k); reflexivity.
Qed.

Lemma size_delete (m : JSMap.t K Z) (k : K) :
  JSMap.size (JSMap.delete eqb m k) =
  match JSMap.get eqb m k with
  | Some _ => pred (JSMap.size m)
  | None => JSMap.size m
  end.
Proof.
  unfold JSMap.size. induction m as [|[k' v'] m IH]; simpl; auto.
  destruct (eqb k' k); simpl; auto.
  rewrite IH. destruct (JSMap.get eqb m k) eqn:E; auto.
  destruct m; [discriminate|reflexivity].
Qed.

Lemma get_zero_free (m : JSMap.t K Z) (k : K) :
  JSMap.zero_free m = true ->
  JSMap.get eqb m k = if JSMap.lookup eqb m k =? 0 then None
                      else Some (JSMap.lookup eqb m k).
Proof.
  intros Hz. unfold JSMap.lookup.
  destruct (JSMap.get eqb m k) as [v|] eqn:E; auto.
  apply (get_In_keys eqb eqb_eq) in E.
  apply (proj1 (zero_free_spec m) Hz) in E.
  apply Z.eqb_neq in E. rewrite E. reflexivity.
Qed.

(** What [setElement] stores under the key, and how the count moves. *)
Lemma get_store (m : JSMap.t K Z) (k : K) (v : Z) :
  NoDup (JSMap.keys m) ->
  JSMap.get eqb (JSMap.store eqb m k v) k = if v =? 0 then None else Some v.
Proof.
  intros Hnd. unfold JSMap.store. destruct (v =? 0); simpl.
  - apply (get_delete_same eqb eqb_eq); assumption.
  - apply (get_set_same eqb eqb_eq).
Qed.

Lemma size_store (m : JSMap.t K Z) (k : K) (v : Z) :
  JSMap.zero_free m = true ->
  JSMap.size (JSMap.store eqb m k v) =
  if v =? 0
  then (if JSMap.lookup eqb m k =? 0 then JSMap.size m else pred (JSMap.size m))
  else (if JSMap.lookup eqb m k =? 0 then S (JSMap.size m) else JSMap.size m).
Proof.
  intros Hz. unfold JSMap.store. destruct (v =? 0); simpl.
  - rewrite size_delete, (get_zero_free m k Hz).
    destruct (JSMap.lookup eqb m k =? 0); reflexivity.
  - rewrite size_set, (get_zero_free m k Hz).
    destruct (JSMap.lookup eqb m k =? 0); reflexivity.
Qed.

Lemma size_store_clear (m : JSMap.t K Z) (k : K) (v : Z) :
  v <> 0 -> NoDup (JSMap.keys m) -> JSMap.zero_free m = true ->
  JSMap.size (JSMap.store eqb (JSMap.store eqb m k v) k 0) =
  if JSMap.lookup eqb m k =? 0 then JSMap.size m else pred (JSMap.size m).
Proof.
  intros Hv Hnd Hz.
  rewrite size_store by (apply (zero_free_store eqb eqb_eq); assumption).
  rewrite (lookup_store eqb eqb_eq) by assumption.
  rewrite (eqb_refl eqb eqb_eq). simpl.
  apply Z.eqb_neq in Hv. rewrite Hv.
  rewrite size_store by assumption. rewrite Hv.
  destruct (JSMap.lookup eqb m k =? 0); reflexivity.
Qed.

Lemma build_store_invariant (g : Z * Z -> K) (calls : list (Z * Z * Z))
      (m : JSMap.t K Z) :
  NoDup (JSMap.keys m) -> JSMap.zero_free m = true ->
  let m' := fold_left (fun acc e => JSMap.store eqb acc (g (fst e)) (snd e))
                      calls m in
  NoDup (JSMap.keys m') /\ JSMap.zero_free m' = true.
Proof.
  revert m. induction calls as [|e calls IH]; intros m Hnd Hz; simpl; auto.
  apply IH.
  - apply (NoDup_store eqb eqb_eq). exact Hnd.
  - apply (zero_free_store eqb eqb_eq). exact Hz.
Qed.
End SizeFacts.

Lemma index_build_elements (rows cols : Z) (calls : list (Z * Z * Z)) :
  IndexJs.build rows cols calls =
  IndexJs.mk rows cols
    (fold_left (fun acc e => JSMap.store String.eqb acc (index_key (fst e)) (snd e))
               calls []).
Proof.
  unfold IndexJs.build, IndexJs.new. generalize (@nil (string * Z)).
  induction calls as [|[[r c] v] calls IH]; intros l; simpl; auto.
  rewrite index_setElement_store. simpl. apply IH.
Qed.

Lemma part_set_store (m : Part000.SparseMap.t) (r c v : Z) :
  Part000.SparseMap.set m r c v =
  Part000.SparseMap.mk (Part000.SparseMap.rows m) (Part000.SparseMap.cols m)
    (JSMap.store Z.eqb (Part000.SparseMap.elements m)
                 (part_key (Part000.SparseMap.cols m) (r, c)) v).
Proof.
  unfold Part000.SparseMap.set, Part000.SparseMap.getKey, JSMap.store, part_key.
  simpl. destruct (negb (v =? 0)); reflexivity.
Qed.

Lemma part_build_elements (rows cols : Z) (calls : list (Z * Z * Z)) :
  Part000.SparseMap.build rows cols calls =
  Part000.SparseMap.mk rows cols
    (fold_left (fun acc e => JSMap.store Z.eqb acc (part_key cols (fst e)) (snd e))
               calls []).
Proof.
  unfold Part000.SparseMap.build, Part000.SparseMap.new.
  generalize (@nil (Z * Z)).
  induction calls as [|[[r c] v] calls IH]; intros l; simpl; auto.
  rewrite part_set_store. simpl. apply IH.
Qed.

Lemma index_build_invariant (rows cols : Z) (calls : list (Z * Z * Z)) :
  NoDup (JSMap.keys (IndexJs.elements (IndexJs.build rows cols calls))) /\
  JSMap.zero_free (IndexJs.elements (IndexJs.build rows cols calls)) = true.
Proof.
  rewrite index_build_elements. simpl.
  apply (build_store_invariant _ String.eqb string_eqb_eq index_key calls []).
  - constructor.
  - reflexivity.
Qed.

Lemma part_build_invariant (rows cols : Z) (calls : list (Z * Z * Z)) :
  NoDup (JSMap.keys (Part000.SparseMap.elements
                       (Part000.SparseMap.build rows cols calls))) /\
  JSMap.zero_free (Part000.SparseMap.elements
                     (Part000.SparseMap.build rows cols calls)) = true.
Proof.
  rewrite part_build_elements. simpl.
  apply (build_store_invariant _ Z.eqb Z_eqb_eq (part_key cols) calls []).
  - constructor.
  - reflexivity.
Qed.

(** C5, in the form the code satisfies.
    On a matrix built by any sequence of [setElement]
    calls, in either file: [setElement] with a value that is not zero
    stores that value under the key, over any value stored before, and
    with zero removes what the key holds; no stored value is ever zero;
    after [setElement(r, c, 5)] and then [setElement(r, c, 0)] a read of
    [(r, c)] gives 0 and the count of entries is the count before when
    [(r, c)] read 0 before, and one less when it held an entry. *)
Theorem set_keeps_zero_elision (rows cols : Z) (calls : list (Z * Z * Z))
        (r c v : Z) :
  let m := IndexJs.build rows cols calls in
  let m' := Part000.SparseMatrix.mk (Part000.SparseMap.build rows cols calls) in
  (JSMap.get String.eqb (IndexJs.elements (setElement m r c v)) (IndexJs.key r c)
   = (if v =? 0 then None else Some v) /\
   getElement (setElement m r c v) r c = v /\
   JSMap.zero_free (IndexJs.elements m) = true /\
   JSMap.zero_free (IndexJs.elements (setElement m r c v)) = true /\
   getElement (setElement (setElement m r c 5) r c 0) r c = 0 /\
   size (setElement (setElement m r c 5) r c 0)
   = (if getElement m r c =? 0 then size m else pred (size m))) /\
  (JSMap.get Z.eqb
     (Part000.SparseMap.elements (Part000.SparseMatrix.data (setElement m' r c v)))
     (Part000.SparseMap.getKey (Part000.SparseMatrix.data m') r c)
   = (if v =? 0 then None else Some v) /\
   getElement (setElement m' r c v) r c = v /\
   JSMap.zero_free (Part000.SparseMap.elements (Part000.SparseMatrix.data m')) = true /\
   JSMap.zero_free
     (Part000.SparseMap.elements (Part000.SparseMatrix.data (setElement m' r c v)))
   = true /\
   getElement (setElement (setElement m' r c 5) r c 0) r c = 0 /\
   size (setElement (setElement m' r c 5) r c 0)
   = (if getElement m' r c =? 0 then size m' else pred (size m'))).
Proof.
  intros m m'.
  destruct (index_build_invariant rows cols calls) as [Hnd Hz].
  destruct (part_build_invariant rows cols calls) as [Hnd' Hz'].
  fold m in Hnd, Hz.
  change (Part000.SparseMap.build rows cols calls)
    with (Part000.SparseMatrix.data m') in Hnd', Hz'.
  assert (Hget : forall (x : IndexJs.SparseMatrix) w,
             NoDup (JSMap.keys (IndexJs.elements x)) ->
             getElement (setElement x r c w) r c = w).
  { intros x w Hx. cbn [setElement getElement size IndexJs_Matrix]. rewrite index_setElement_store.
    unfold IndexJs.getElement. simpl.
    rewrite (get_store _ String.eqb string_eqb_eq) by exact Hx.
    destruct (Z.eqb_spec w 0); auto. }
  assert (Hget' : forall (x : Part000.SparseMatrix.t) w,
             NoDup (JSMap.keys (Part000.SparseMap.elements
                                  (Part000.SparseMatrix.data x))) ->
             getElement (setElement x r c w) r c = w).
  { intros x w Hx. cbn [setElement getElement size Part000_Matrix]. rewrite part_setElement_store.
    unfold Part000.SparseMatrix.getElement, Part000.SparseMap.get,
      Part000.SparseMap.getKey. simpl.
    rewrite (get_store _ Z.eqb Z_eqb_eq) by exact Hx.
    destruct (Z.eqb_spec w 0); auto. }
  split.
  - split; [|split; [|split; [|split; [|split]]]].
    + cbn [setElement getElement size IndexJs_Matrix]. rewrite index_setElement_store. simpl.
      apply (get_store _ String.eqb string_eqb_eq). exact Hnd.
    + apply Hget. exact Hnd.
    + exact Hz.
    + cbn [setElement getElement size IndexJs_Matrix]. rewrite index_setElement_store. simpl.
      apply (zero_free_store String.eqb string_eqb_eq). exact Hz.
    + apply Hget. cbn [setElement getElement size IndexJs_Matrix]. rewrite index_setElement_store. simpl.
      apply (NoDup_store String.eqb string_eqb_eq). exact Hnd.
    + cbn [setElement getElement size IndexJs_Matrix]. rewrite !index_setElement_store. unfold IndexJs.size. simpl.
      apply (size_store_clear _ String.eqb string_eqb_eq); auto. discriminate.
  - split; [|split; [|split; [|split; [|split]]]].
    + cbn [setElement getElement size Part000_Matrix]. rewrite part_setElement_store. simpl.
      apply (get_store _ Z.eqb Z_eqb_eq). exact Hnd'.
    + apply Hget'. exact Hnd'.
    + exact Hz'.
    + cbn [setElement getElement size Part000_Matrix]. rewrite part_setElement_store. simpl.
      apply (zero_free_store Z.eqb Z_eqb_eq). exact Hz'.
    + apply Hget'. cbn [setElement getElement size Part000_Matrix]. rewrite part_setElement_store. simpl.
      apply (NoDup_store Z.eqb Z_eqb_eq). exact Hnd'.
    + cbn [setElement getElement size Part000_Matrix]. rewrite !part_setElement_store. unfold Part000.SparseMap.size. simpl.
      apply (size_store_clear _ Z.eqb Z_eqb_eq); auto. discriminate.
Qed.

(** C5 as the specification words it does not hold:
    on the matrix holding 7 at [(0, 0)], the two
    calls leave no entry, one fewer than before. *)
Lemma set_then_clear_loses_an_entry :
  size index_seven = 1%nat /\
  size (setElement (setElement index_seven 0 0 5) 0 0 0) = 0%nat /\
  size part_seven = 1%nat /\
  size (setElement (setElement part_seven 0 0 5) 0 0 0) = 0%nat /\
  size (setElement (setElement index_seven 0 0 5) 0 0 0) <> size index_seven /\
  size (setElement (setElement part_seven 0 0 5) 0 0 0) <> size part_seven.
Proof. repeat split; try reflexivity; vm_compute; discriminate. Qed.

(** ** Reads *)







(** ** Matrices built by calls of [setElement] *)


Section BuildFacts.
Variable K : Type.
Variable eqb : K -> K -> bool.
Hypothesis eqb_eq : forall a b, eqb a b = true <-> a = b.
Variable g : Z * Z -> K.

#[local] Abbreviation built :=
  (fun (calls : list (Z * Z * Z)) (m0 : JSMap.t K Z) =>
     fold_left (fun acc e => JSMap.store eqb acc (g (fst e)) (snd e)) calls m0).


End BuildFacts.









(** ** Reading a file *)

Section Parsing.
#[local] Open Scope string_scope.

Lemma digit_parses (a : ascii) (u : Decimal.uint) :
  JS.is_digit a = true -> exists u', uint_of_char a (Some u) = Some u'.
Proof.
  destruct a as [[|] [|] [|] [|] [|] [|] [|] [|]];
    simpl; intros H; try discriminate H; eauto.
Qed.

Lemma digit_not_minus (a : ascii) :
  JS.is_digit a = true -> Ascii.eqb a "-" = false.
Proof.
  destruct a as [[|] [|] [|] [|] [|] [|] [|] [|]];
    simpl; intros H; try discriminate H; reflexivity.
Qed.

Lemma digits_parse_uint (d : string) :
  every JS.is_digit d = true -> exists u, NilEmpty.uint_of_string d = Some u.
Proof.
  induction d as [|a d IH]; simpl.
  - eauto.
  - rewrite andb_true_iff. intros [Ha Hd].
    destruct (IH Hd) as (u & ->). apply digit_parses. exact Ha.
Qed.

(** [parseInt] reads every text of the form [\d+]. *)
Lemma parseInt_digits (d : string) :
  d <> "" -> every JS.is_digit d = true -> exists n, JS.parseInt d = Some n.
Proof.
  intros Hne Hd. unfold JS.parseInt, JS.decimal.
  destruct d as [|a d]; [contradiction|].
  destruct (digits_parse_uint _ Hd) as (u & Hu).
  simpl in Hd. apply andb_true_iff in Hd. destruct Hd as [Ha _].
  unfold NilZero.int_of_string. rewrite (digit_not_minus a Ha).
  unfold NilZero.uint_of_string. rewrite Hu. simpl. eauto.
Qed.

(** [parseInt] reads every text of the form [-\d+]. *)
Lemma parseInt_minus_digits (d : string) :
  d <> "" -> every JS.is_digit d = true ->
  exists n, JS.parseInt ("-" ++ d) = Some n.
Proof.
  intros Hne Hd. unfold JS.parseInt, JS.decimal.
  destruct (digits_parse_uint _ Hd) as (u & Hu).
  simpl. unfold NilZero.uint_of_string.
  destruct d as [|a d]; [contradiction|]. rewrite Hu. simpl. eauto.
Qed.

Lemma digits_every (s d rest : string) :
  JS.digits s = (d, rest) -> every JS.is_digit d = true.
Proof.
  revert d rest. induction s as [|a s IH]; simpl; intros d rest.
  - intros [= <- <-]. reflexivity.
  - destruct (JS.is_digit a) eqn:Ha.
    + destruct (JS.digits s) as [d' r'] eqn:E. intros [= <- <-]. simpl.
      rewrite Ha. simpl. eapply IH. reflexivity.
    + intros [= <- <-]. reflexivity.
Qed.

Lemma digits1_spec (s d rest : string) :
  JS.digits1 s = Some (d, rest) -> d <> "" /\ every JS.is_digit d = true.
Proof.
  unfold JS.digits1. destruct (JS.digits s) as [d' r'] eqn:E.
  destruct d' as [|a d']; [discriminate|].
  intros [= <- <-]. split; [discriminate|]. eapply digits_every. exact E.
Qed.

(** The groups of every match of the header patterns read as integers. *)
Lemma header_parses (name s d : string) :
  JS.search (JS.header_here name) s = Some d -> exists n, JS.parseInt d = Some n.
Proof.
  induction s as [|a s IH]; simpl.
  - destruct (JS.header_here name "") as [d'|] eqn:E; [|discriminate].
    intros [= ->]. unfold JS.header_here in E.
    destruct (JS.literal name ""); [|discriminate].
    destruct (JS.digits1 s) as [[d' r']|] eqn:E'; [|discriminate].
    simpl in E. inversion E; subst.
    apply digits1_spec in E'. apply parseInt_digits; tauto.
  - destruct (JS.header_here name (String a s)) as [d'|] eqn:E; [|exact IH].
    intros [= ->]. unfold JS.header_here in E.
    destruct (JS.literal name (String a s)) as [rest|]; [|discriminate].
    destruct (JS.digits1 rest) as [[d' r']|] eqn:E'; [|discriminate].
    simpl in E. inversion E; subst.
    apply digits1_spec in E'. apply parseInt_digits; tauto.
Qed.

(** The groups of every match of the element pattern read as integers. *)
Lemma element_here_parses (s row col value : string) :
  JS.element_here s = Some (row, col, value) ->
  exists r c v, JS.parseInt row = Some r /\ JS.parseInt col = Some c /\
                JS.parseInt value = Some v.
Proof.
  unfold JS.element_here.
  destruct (JS.literal "(" s) as [s1|]; [|discriminate].
  destruct (JS.digits1 s1) as [[row' s2]|] eqn:E1; [|discriminate].
  destruct (JS.literal "," s2) as [s3|]; [|discriminate].
  destruct (JS.digits1 (JS.trimStart s3)) as [[col' s4]|] eqn:E2; [|discriminate].
  destruct (JS.literal "," s4) as [s5|]; [|discriminate].
  apply digits1_spec in E1, E2.
  destruct (JS.literal "-" (JS.trimStart s5)) as [s6|].
  - destruct (JS.digits1 s6) as [[val s7]|] eqn:E3; [|discriminate].
    destruct (JS.literal ")" s7); [|discriminate].
    intros [= <- <- <-]. apply digits1_spec in E3.
    destruct (parseInt_digits row') as (r & Hr); try tauto.
    destruct (parseInt_digits col') as (c & Hc); try tauto.
    destruct (parseInt_minus_digits val) as (v & Hv); try tauto.
    exists r, c, v. auto.
  - destruct (JS.digits1 (JS.trimStart s5)) as [[val s7]|] eqn:E3; [|discriminate].
    destruct (JS.literal ")" s7); [|discriminate].
    intros [= <- <- <-]. apply digits1_spec in E3.
    destruct (parseInt_digits row') as (r & Hr); try tauto.
    destruct (parseInt_digits col') as (c & Hc); try tauto.
    destruct (parseInt_digits val) as (v & Hv); try tauto.
    exists r, c, v. auto.
Qed.

Lemma match_element_parses (s row col value : string) :
  JS.match_element s = Some (row, col, value) ->
  exists r c v, JS.parseInt row = Some r /\ JS.parseInt col = Some c /\
                JS.parseInt value = Some v.
Proof.
  unfold JS.match_element. induction s as [|a s IH]; simpl.
  - discriminate.
  - destruct (JS.element_here (String a s)) as [[[r0 c0] v0]|] eqn:E; [|exact IH].
    intros [= <- <- <-]. eapply element_here_parses. exact E.
Qed.
End Parsing.

Section ReadingLines.
#[local] Open Scope string_scope.

Lemma element_of_line_match (line row col value : string) :
  JS.match_element line = Some (row, col, value) ->
  exists r c v,
    JS.parseInt row = Some r /\ JS.parseInt col = Some c /\
    JS.parseInt value = Some v /\ element_of_line line = [(r, c, v)].
Proof.
  intros Hm. destruct (match_element_parses _ _ _ _ Hm) as (r & c & v & Hr & Hc & Hv).
  exists r, c, v. unfold element_of_line. rewrite Hm, Hr, Hc, Hv. auto.
Qed.

Lemma element_of_line_skip (line : string) :
  JS.match_element line = None -> element_of_line line = [].
Proof. intros Hm. unfold element_of_line. rewrite Hm. reflexivity. Qed.

(** The loop of [readMatrix] collects the triples of the matching lines,
    in order, and passes over the others. *)
Lemma read_lines (ls : list string) (acc : list (Z * Z * Z)) :
  for_of ls Part000.FileHandler.read_line acc
  = Ret (acc ++ flat_map element_of_line ls)%list.
Proof.
  revert acc. induction ls as [|line ls IH]; intros acc; simpl.
  - rewrite app_nil_r. reflexivity.
  - unfold Part000.FileHandler.read_line at 1.
    destruct (JS.match_element line) as [[[row col] value]|] eqn:Hm.
    + destruct (element_of_line_match _ _ _ _ Hm) as (r & c & v & Hr & Hc & Hv & He).
      rewrite Hr, Hc, Hv, He. simpl. rewrite IH, <- app_assoc. reflexivity.
    + rewrite (element_of_line_skip _ Hm). simpl. apply IH.
Qed.

(** The loop of [loadFromFile] sets them one after the other. *)
Lemma load_lines (ls : list string) (m : IndexJs.SparseMatrix) :
  for_of ls IndexJs.load_line m
  = Ret (fold_left (fun acc e => IndexJs.setElement acc (fst (fst e)) (snd (fst e)) (snd e))
                   (flat_map element_of_line ls) m).
Proof.
  revert m. induction ls as [|line ls IH]; intros m; simpl; auto.
  unfold IndexJs.load_line at 1.
  destruct (JS.match_element line) as [[[row col] value]|] eqn:Hm.
  - destruct (element_of_line_match _ _ _ _ Hm) as (r & c & v & Hr & Hc & Hv & He).
    rewrite Hr, Hc, Hv, He. simpl. apply IH.
  - rewrite (element_of_line_skip _ Hm). simpl. apply IH.
Qed.

Lemma split_nonempty (sep : ascii) (s : string) : JS.split sep s <> [].
Proof.
  destruct s as [|c s]; simpl; [discriminate|].
  destruct (Ascii.eqb c sep); [discriminate|].
  destruct (JS.split sep s); discriminate.
Qed.

Lemma split_app (sep : ascii) (a b : string) :
  JS.split sep (a ++ String sep b) = (JS.split sep a ++ JS.split sep b)%list.
Proof.
  induction a as [|c a IH]; simpl.
  - rewrite Ascii.eqb_refl. reflexivity.
  - destruct (Ascii.eqb c sep).
    + rewrite IH. reflexivity.
    + rewrite IH. pose proof (split_nonempty sep a) as Hne.
      destruct (JS.split sep a) as [|h t]; [contradiction|]. reflexivity.
Qed.

(** A line of blanks between two line breaks changes nothing. *)
Lemma blank_line_ignored (a b blank : string) :
  occurs "010" blank = false -> JS.trim blank = "" ->
  JS.nonblank_lines (a ++ String "010" (blank ++ String "010" b))
  = JS.nonblank_lines (a ++ String "010" b).
Proof.
  intros Hnl Hblank. unfold JS.nonblank_lines.
  rewrite !split_app, (split_without "010" blank Hnl).
  rewrite !map_app, !filter_app. simpl. rewrite Hblank. reflexivity.
Qed.

Lemma flat_map_skip (before after : list string) (line : string) :
  element_of_line line = [] ->
  flat_map element_of_line (before ++ line :: after)
  = flat_map element_of_line (before ++ after).
Proof.
  intros He. rewrite !flat_map_app. simpl. rewrite He. reflexivity.
Qed.
End ReadingLines.

(** C9.  With fewer than three non-blank lines, reading a file throws
    [Input file has insufficient data]; with three or more and a first
    line that does not match [rows=(\d+)] or a second that does not match
    [cols=(\d+)], it throws [Input file has wrong format].  Otherwise it
    returns the two header numbers and the triples of the later lines that
    match the element pattern, in order: a line that does not match
    contributes nothing and the lines after it are still read.  A line of
    blanks changes nothing. *)
Theorem parsing_is_lenient (this : IndexJs.SparseMatrix) (content : string) :
  let lines := JS.nonblank_lines content in
  ((List.length lines < 3)%nat ->
   Part000.FileHandler.readMatrix content
   = Throw "Unable to read input file: Input file has insufficient data" /\
   IndexJs.loadFromFile this content
   = Throw "Unable to open input file: Input file has insufficient data") /\
  ((3 <= List.length lines)%nat ->
   JS.match_rows (nth 0 lines ""%string) = None \/
   JS.match_cols (nth 1 lines ""%string) = None ->
   Part000.FileHandler.readMatrix content
   = Throw "Unable to read input file: Input file has wrong format" /\
   IndexJs.loadFromFile this content
   = Throw "Unable to open input file: Input file has wrong format") /\
  ((3 <= List.length lines)%nat ->
   forall rowMatch colMatch,
     JS.match_rows (nth 0 lines ""%string) = Some rowMatch ->
     JS.match_cols (nth 1 lines ""%string) = Some colMatch ->
     exists rows cols,
       JS.parseInt rowMatch = Some rows /\ JS.parseInt colMatch = Some cols /\
       Part000.FileHandler.readMatrix content
       = Ret (rows, cols, flat_map element_of_line (skipn 2 lines)) /\
       IndexJs.loadFromFile this content
       = Ret (fold_left
                (fun acc e => IndexJs.setElement acc (fst (fst e)) (snd (fst e)) (snd e))
                (flat_map element_of_line (skipn 2 lines))
                (IndexJs.mk rows cols (IndexJs.elements this)))) /\
  (forall line, JS.match_element line = None -> element_of_line line = []) /\
  (forall before after line,
      JS.match_element line = None ->
      flat_map element_of_line (before ++ line :: after)
      = flat_map element_of_line (before ++ after)) /\
  (forall a b blank,
      occurs "010" blank = false -> JS.trim blank = ""%string ->
      JS.nonblank_lines (a ++ String "010" (blank ++ String "010" b))
      = JS.nonblank_lines (a ++ String "010" b)).
Proof.
  intros lines. split; [|split; [|split; [|split; [|split]]]].
  - intros Hlen. apply Nat.ltb_lt in Hlen.
    unfold Part000.FileHandler.readMatrix, IndexJs.loadFromFile.
    fold lines. rewrite Hlen. split; reflexivity.
  - intros Hlen Hhead.
    assert (Hlt : (List.length lines <? 3)%nat = false) by (apply Nat.ltb_ge; lia).
    unfold Part000.FileHandler.readMatrix, IndexJs.loadFromFile.
    fold lines. rewrite Hlt.
    destruct Hhead as [Hh|Hh]; rewrite Hh.
    + split; reflexivity.
    + destruct (JS.match_rows (nth 0 lines ""%string)); split; reflexivity.
  - intros Hlen rowMatch colMatch Hr Hc.
    assert (Hlt : (List.length lines <? 3)%nat = false) by (apply Nat.ltb_ge; lia).
    destruct (header_parses _ _ _ Hr) as (rows0 & Hrows).
    destruct (header_parses _ _ _ Hc) as (cols0 & Hcols).
    exists rows0, cols0. split; [exact Hrows|split; [exact Hcols|]].
    unfold Part000.FileHandler.readMatrix, IndexJs.loadFromFile.
    fold lines. rewrite Hlt, Hr, Hc, Hrows, Hcols.
    rewrite read_lines, load_lines. split; reflexivity.
  - apply element_of_line_skip.
  - intros before after line Hm. apply flat_map_skip.
    apply element_of_line_skip. exact Hm.
  - apply blank_line_ignored.
Qed.

Lemma parsing_is_lenient_witness :
  JS.nonblank_lines example_file
  = ["rows=2"; "cols=2"; "(0,0,5)"; "(1, 2, abc)"; "(1, 1, -6)"]%string /\
  Part000.FileHandler.readMatrix example_file
  = Ret (2, 2, [(0, 0, 5); (1, 1, -6)]) /\
  IndexJs.loadFromFile (IndexJs.new 0 0) example_file
  = Ret (IndexJs.mk 2 2 [("0,0"%string, 5); ("1,1"%string, -6)]).
Proof.
  split; [reflexivity|].
  destruct (parsing_is_lenient (IndexJs.new 0 0) example_file)
    as (_ & _ & Hread & _).
  destruct (Hread ltac:(vm_compute; lia) "2"%string "2"%string eq_refl eq_refl)
    as (rows0 & cols0 & Hrows & Hcols & Hr & Hl).
  vm_compute in Hrows, Hcols. inversion Hrows; inversion Hcols; subst.
  split; [exact Hr|exact Hl].
Defined.

(** * Further properties of the code

    The properties below are read off the two source files.  They cover
    what the properties of the specification leave out: the texts
    [saveToFile] writes and what reading them gives, more of point
    access, the laws the three operations obey, the operands of [add]
    and [subtract] on the heap, and [main] of [src/unnamed/part_000]. *)

(** ** Point access *)

(** X1.  The key [src/index.js] writes for a coordinate is split at its
    comma into the two numbers as they were printed, and [Number] reads
    them back: the key decodes to the coordinate it was made from, for
    every pair of integers, negative ones included, so no two
    coordinates share a key. *)
Theorem key_round_trip (row col row' col' : Z) :
  JS.split "," (IndexJs.key row col) = [JS.toString row; JS.toString col] /\
  JS.Number (JS.toString row) = Some row /\
  IndexJs.coords (IndexJs.key row col) = Some (row, col) /\
  (IndexJs.key row col = IndexJs.key row' col' -> row = row' /\ col = col').
Proof.
  split; [|split; [|split]].
  - unfold IndexJs.key.
    change ("," ++ JS.toString col)%string with (String "," (JS.toString col)).
    rewrite split_at by apply toString_without_comma.
    rewrite split_without by apply toString_without_comma. reflexivity.
  - apply Number_toString.
  - apply coords_key.
  - apply key_inj.
Qed.

Section Frame.

Lemma lookup_get {K} (eqb : K -> K -> bool) (m : JSMap.t K Z) (k : K) :
  match JSMap.get eqb m k with Some v => v | None => 0 end
  = JSMap.lookup eqb m k.
Proof. reflexivity. Qed.




(** X3.  The size counts the stored entries: on a valid matrix
    [setElement] adds one when it writes a non-zero value where zero was
    read, removes one when it writes zero where a non-zero value was
    read, and keeps the count otherwise. *)
Theorem set_counts_entries
        (m : IndexJs.SparseMatrix) (m' : Part000.SparseMatrix.t) (r c v : Z) :
  valid m = true -> valid m' = true ->
  size (setElement m r c v)
  = (if v =? 0
     then if getElement m r c =? 0 then size m else Nat.pred (size m)
     else if getElement m r c =? 0 then S (size m) else size m) /\
  size (setElement m' r c v)
  = (if v =? 0
     then if getElement m' r c =? 0 then size m' else Nat.pred (size m')
     else if getElement m' r c =? 0 then S (size m') else size m').
Proof.
  intros Hv Hv'. split.
  - apply index_valid_spec in Hv. destruct Hv as [Hwf _].
    pose proof (proj1 (index_well_formed_spec m) Hwf) as (_ & _ & Hz).
    cbn [size getElement setElement IndexJs_Matrix].
    rewrite index_setElement_store. unfold IndexJs.size, IndexJs.getElement.
    cbn [IndexJs.elements]. rewrite lookup_get.
    apply (size_store _ String.eqb string_eqb_eq). exact Hz.
  - change (Part000.SparseMap.valid (Part000.SparseMatrix.data m') = true) in Hv'.
    destruct (part_valid_proper _ Hv') as (_ & Hz & _).
    cbn [size getElement setElement Part000_Matrix].
    rewrite part_setElement_store.
    unfold Part000.SparseMap.size, Part000.SparseMatrix.getElement,
      Part000.SparseMap.get, Part000.SparseMap.getKey.
    cbn [Part000.SparseMatrix.data Part000.SparseMap.elements]. rewrite lookup_get.
    apply (size_store _ Z.eqb Z_eqb_eq). exact Hz.
Qed.

Lemma set_counts_entries_witness :
  size (setElement index_a 0 0 0) = 3%nat /\
  size (setElement part_b 0 1 9) = 3%nat.
Proof.
  destruct (set_counts_entries index_a part_a 0 0 0 eq_refl eq_refl) as [Hi _].
  destruct (set_counts_entries index_b part_b 0 1 9 eq_refl eq_refl) as [_ Hp].
  split; [rewrite Hi|rewrite Hp]; reflexivity.
Defined.

End Frame.

(** ** Texts

    [toString] writes digits, after [-] for a negative number; a written
    line has no blank at either end and no line break. *)

Section Printing.
#[local] Open Scope string_scope.

Lemma append_assoc (a b c : string) : (a ++ b) ++ c = a ++ (b ++ c).
Proof. induction a as [|x a IH]; simpl; congruence. Qed.

Lemma append_nil_r (a : string) : a ++ "" = a.
Proof. induction a as [|x a IH]; simpl; congruence. Qed.

Lemma occurs_app (c : ascii) (a b : string) :
  occurs c (a ++ b) = occurs c a || occurs c b.
Proof.
  induction a as [|x a IH]; simpl; auto. rewrite IH, orb_assoc. reflexivity.
Qed.

Lemma uint_digits (u : Decimal.uint) :
  every JS.is_digit (NilEmpty.string_of_uint u) = true.
Proof. induction u; simpl; auto. Qed.

Lemma NilZero_digits (u : Decimal.uint) :
  NilZero.string_of_uint u <> "" /\
  every JS.is_digit (NilZero.string_of_uint u) = true.
Proof.
  destruct u; simpl; split; try discriminate; auto; apply uint_digits.
Qed.

Lemma toString_nonneg (n : Z) :
  0 <= n ->
  JS.toString n <> "" /\ every JS.is_digit (JS.toString n) = true.
Proof.
  unfold JS.toString. destruct n as [|p|p]; intros Hn.
  - simpl. split; [discriminate|reflexivity].
  - simpl. apply NilZero_digits.
  - lia.
Qed.

Lemma toString_neg (n : Z) :
  n < 0 ->
  exists d, JS.toString n = String "-" d /\ d <> "" /\
            every JS.is_digit d = true.
Proof.
  unfold JS.toString. destruct n as [|p|p]; intros Hn; try lia.
  simpl. eexists. split; [reflexivity|]. apply NilZero_digits.
Qed.

Lemma digit_not_space (s : string) :
  every JS.is_digit s = true ->
  every (fun c => negb (JS.is_space c)) s = true.
Proof.
  induction s as [|a s IH]; simpl; auto.
  rewrite !andb_true_iff. intros [Ha Hs]. split; auto.
  destruct a as [[|] [|] [|] [|] [|] [|] [|] [|]];
    simpl in Ha |- *; try discriminate Ha; reflexivity.
Qed.

Lemma toString_not_space (n : Z) :
  every (fun c => negb (JS.is_space c)) (JS.toString n) = true.
Proof.
  destruct (Z_lt_le_dec n 0) as [Hn|Hn].
  - destruct (toString_neg n Hn) as (d & -> & _ & Hd). simpl.
    apply digit_not_space. exact Hd.
  - apply digit_not_space. apply toString_nonneg. exact Hn.
Qed.

Lemma not_space_without_break (s : string) :
  every (fun c => negb (JS.is_space c)) s = true -> occurs "010" s = false.
Proof.
  induction s as [|a s IH]; simpl; auto.
  rewrite andb_true_iff. intros [Ha Hs]. rewrite (IH Hs), orb_false_r.
  destruct (Ascii.eqb a "010") eqn:E; auto.
  apply Ascii.eqb_eq in E. subst a. discriminate Ha.
Qed.

Lemma toString_without_break (n : Z) : occurs "010" (JS.toString n) = false.
Proof. apply not_space_without_break, toString_not_space. Qed.

Lemma trimEnd_not_space (s : string) :
  every (fun c => negb (JS.is_space c)) s = true -> JS.trimEnd s = s.
Proof.
  induction s as [|a s IH]; simpl; auto.
  rewrite andb_true_iff. intros [Ha Hs]. rewrite (IH Hs).
  destruct s; [|reflexivity].
  apply negb_true_iff in Ha. rewrite Ha. reflexivity.
Qed.

Lemma trimEnd_app (a b : string) :
  b <> "" -> JS.trimEnd b = b -> JS.trimEnd (a ++ b) = a ++ b.
Proof.
  intros Hb Hk. induction a as [|x a IH]; simpl; auto.
  rewrite IH. destruct (a ++ b) eqn:E; [|reflexivity].
  destruct a; simpl in E; [contradiction|discriminate].
Qed.

(** *** The patterns on written lines *)










End Printing.

Section Writing.
#[local] Open Scope string_scope.

Lemma toString_nonempty (n : Z) : JS.toString n <> "".
Proof.
  destruct (Z_lt_le_dec n 0) as [Hn|Hn].
  - destruct (toString_neg n Hn) as (d & -> & _). discriminate.
  - apply toString_nonneg. exact Hn.
Qed.

Lemma append_nonempty (a b : string) : a <> "" -> a ++ b <> "".
Proof. destruct a; [contradiction|discriminate]. Qed.

Lemma toString_trimEnd (n : Z) : JS.trimEnd (JS.toString n) = JS.toString n.
Proof. apply trimEnd_not_space, toString_not_space. Qed.

(** A line that [split] keeps whole and that [trim] and [filter] keep. *)
Lemma header_line_plain (name : string) (n : Z) :
  occurs "010" name = false ->
  (forall s, JS.trimStart (name ++ s) = name ++ s) ->
  let line := name ++ JS.toString n in
  occurs "010" line = false /\ JS.trim line = line /\ line <> "".
Proof.
  intros Hname Hstart line. unfold line. split; [|split].
  - rewrite occurs_app, Hname, toString_without_break. reflexivity.
  - unfold JS.trim. rewrite Hstart. apply trimEnd_app.
    + apply toString_nonempty.
    + apply toString_trimEnd.
  - intros E. destruct name; simpl in E; [|discriminate].
    exact (toString_nonempty n E).
Qed.

Lemma element_line_plain (e : Z * Z * Z) :
  occurs "010" (element_text e) = false /\
  JS.trim (element_text e) = element_text e /\ element_text e <> "".
Proof.
  destruct e as [[row col] value]. unfold element_text. split; [|split].
  - rewrite !occurs_app, !toString_without_break. reflexivity.
  - unfold JS.trim.
    change (JS.trimStart ("(" ++ ?s)) with ("(" ++ s).
    repeat (apply trimEnd_app;
            [first [discriminate | apply append_nonempty, toString_nonempty]|]).
    reflexivity.
  - discriminate.
Qed.

Lemma nonblank_lines_written (ls : list string) :
  (forall line, In line ls ->
     occurs "010" line = false /\ JS.trim line = line /\ line <> "") ->
  JS.nonblank_lines (file_text ls) = ls.
Proof.
  induction ls as [|line ls IH]; intros Hls.
  - reflexivity.
  - destruct (Hls line (or_introl eq_refl)) as (Hb & Ht & Hne).
    unfold JS.nonblank_lines in *. simpl file_text.
    rewrite (split_at "010" line _ Hb). simpl. rewrite Ht.
    destruct (String.eqb line "") eqn:E.
    + apply String.eqb_eq in E. contradiction.
    + simpl. f_equal. apply IH. intros l Hl. apply Hls. right. exact Hl.
Qed.

Lemma matrix_lines_plain (rows cols : Z) (t : list (Z * Z * Z)) (line : string) :
  In line (("rows=" ++ JS.toString rows) :: ("cols=" ++ JS.toString cols)
           :: map element_text t) ->
  occurs "010" line = false /\ JS.trim line = line /\ line <> "".
Proof.
  intros [<-|[<-|Hin]].
  - apply header_line_plain; reflexivity.
  - apply header_line_plain; reflexivity.
  - apply in_map_iff in Hin. destruct Hin as (e & <- & _).
    apply element_line_plain.
Qed.

Lemma nonblank_lines_matrix (rows cols : Z) (t : list (Z * Z * Z)) :
  JS.nonblank_lines (matrix_text rows cols t)
  = ("rows=" ++ JS.toString rows) :: ("cols=" ++ JS.toString cols)
    :: map element_text t.
Proof. apply nonblank_lines_written, matrix_lines_plain. Qed.






(** The text of a matrix without triples has two lines. *)
Lemma insufficient_written (this : IndexJs.SparseMatrix) (rows cols : Z) :
  Part000.FileHandler.readMatrix (matrix_text rows cols [])
  = Throw "Unable to read input file: Input file has insufficient data" /\
  IndexJs.loadFromFile this (matrix_text rows cols [])
  = Throw "Unable to open input file: Input file has insufficient data".
Proof.
  unfold Part000.FileHandler.readMatrix, IndexJs.loadFromFile.
  rewrite nonblank_lines_matrix. split; reflexivity.
Qed.

(** *** What the two classes write *)

Lemma text_of_loop {A} (f g : A -> string) (l : list A) (init : string) :
  (forall x, f x = g x ++ String "010" "") ->
  fold_left (fun content x => content ++ f x) l init
  = init ++ file_text (map g l).
Proof.
  intros Hf. revert init. induction l as [|x l IH]; intros init; simpl.
  - rewrite append_nil_r. reflexivity.
  - rewrite IH, Hf, !append_assoc. reflexivity.
Qed.

Lemma fold_left_mapped {A B C} (f : A -> B -> A) (g : C -> B) (l : list C)
      (a : A) :
  fold_left f (map g l) a = fold_left (fun acc x => f acc (g x)) l a.
Proof. revert a. induction l as [|x l IH]; intros a; simpl; auto. Qed.

Lemma writeMatrix_text (rows cols : Z) (t : list (Z * Z * Z)) :
  Part000.FileHandler.writeMatrix rows cols (Ret t)
  = Ret (matrix_text rows cols t).
Proof.
  unfold Part000.FileHandler.writeMatrix, matrix_text. simpl obind.
  unfold rethrow. f_equal.
  rewrite (text_of_loop Part000.FileHandler.triple_line element_text).
  - cbn [file_text].
    repeat (rewrite append_assoc || (progress cbn [append])). reflexivity.
  - intros [[r c] v]. unfold Part000.FileHandler.triple_line, element_text.
    rewrite !append_assoc. reflexivity.
Qed.

Lemma entry_line_text (e : Z * Z * Z) :
  IndexJs.entry_line (index_key (fst e), snd e)
  = element_text e ++ String "010" "".
Proof.
  destruct e as [[r c] v]. unfold IndexJs.entry_line, index_key, IndexJs.key.
  cbn [fst snd].
  change ("," ++ JS.toString c) with (String "," (JS.toString c)).
  rewrite split_at by apply toString_without_comma.
  rewrite split_without by apply toString_without_comma.
  unfold element_text. rewrite !append_assoc. reflexivity.
Qed.

Lemma saveToFile_text (m : IndexJs.SparseMatrix) (t : list (Z * Z * Z)) :
  IndexJs.elements m = map (fun u : Z * Z * Z => (index_key (fst u), snd u)) t ->
  IndexJs.saveToFile m = matrix_text (IndexJs.rows m) (IndexJs.cols m) t.
Proof.
  intros El. unfold IndexJs.saveToFile, matrix_text. rewrite El.
  rewrite fold_left_mapped.
  rewrite (text_of_loop (fun u : Z * Z * Z => IndexJs.entry_line (index_key (fst u), snd u))
                        element_text).
  - cbn [file_text].
    repeat (rewrite append_assoc || (progress cbn [append])). reflexivity.
  - apply entry_line_text.
Qed.

End Writing.

(** ** Loading a file *)

Section Loading.
#[local] Open Scope string_scope.








End Loading.

(** ** Writing a matrix and reading it back *)

Section RoundTrip.
#[local] Open Scope string_scope.



Lemma size_zero_elements {K} (l : JSMap.t K Z) : JSMap.size l = 0%nat -> l = [].
Proof. destruct l; [reflexivity|discriminate]. Qed.





(** X6.  The text written for a matrix without entries has the two
    header lines only, and reading it throws [Input file has
    insufficient data], for want of a third line. *)
Theorem empty_matrix_is_not_read_back
        (this m : IndexJs.SparseMatrix) (m' : Part000.SparseMatrix.t) :
  size m = 0%nat -> size m' = 0%nat ->
  IndexJs.loadFromFile this (IndexJs.saveToFile m)
  = Throw "Unable to open input file: Input file has insufficient data" /\
  exists content,
    Part000.SparseMatrix.saveToFile m' = Ret content /\
    Part000.SparseMatrix.fromFile content
    = Throw "Unable to read input file: Input file has insufficient data".
Proof.
  intros Hs Hs'. apply size_zero_elements in Hs.
  change (JSMap.size (Part000.SparseMap.elements (Part000.SparseMatrix.data m'))
          = 0%nat) in Hs'.
  apply size_zero_elements in Hs'. split.
  - rewrite (saveToFile_text m [] Hs). apply insufficient_written.
  - exists (matrix_text (Part000.SparseMatrix.rows m') (Part000.SparseMatrix.cols m') []).
    split.
    + unfold Part000.SparseMatrix.saveToFile, Part000.SparseMatrix.iterator,
        Part000.SparseMap.iterator.
      rewrite Hs'. apply writeMatrix_text.
    + unfold Part000.SparseMatrix.fromFile.
      rewrite (proj1 (insufficient_written this _ _)). reflexivity.
Qed.

Lemma empty_matrix_is_not_read_back_witness :
  IndexJs.loadFromFile (IndexJs.new 0 0) (IndexJs.saveToFile index_empty)
  = Throw "Unable to open input file: Input file has insufficient data" /\
  exists content,
    Part000.SparseMatrix.saveToFile part_empty = Ret content /\
    Part000.SparseMatrix.fromFile content
    = Throw "Unable to read input file: Input file has insufficient data".
Proof.
  apply (empty_matrix_is_not_read_back (IndexJs.new 0 0) index_empty part_empty);
    reflexivity.
Defined.

(** X7.  For the same dimensions and the same triples in the same
    order, the two classes write the same text. *)
Theorem both_classes_write_the_same_text
        (m : IndexJs.SparseMatrix) (m' : Part000.SparseMatrix.t)
        (t : list (Z * Z * Z)) :
  valid m = true -> triples m = Ret t -> triples m' = Ret t ->
  rows m = rows m' -> cols m = cols m' ->
  Part000.SparseMatrix.saveToFile m' = Ret (IndexJs.saveToFile m).
Proof.
  intros Hv Ht Ht' Hr Hc. apply index_valid_spec in Hv. destruct Hv as [Hwf _].
  destruct (index_represents m Hwf) as (t0 & (Ht0 & _) & El).
  assert (t0 = t) by congruence. subst t0.
  rewrite (saveToFile_text m t El).
  unfold Part000.SparseMatrix.saveToFile.
  change (Part000.SparseMatrix.iterator m') with (triples m'). rewrite Ht'.
  cbn [rows cols IndexJs_Matrix Part000_Matrix] in Hr, Hc. rewrite Hr, Hc.
  apply writeMatrix_text.
Qed.

Lemma both_classes_write_the_same_text_witness :
  Part000.SparseMatrix.saveToFile part_a = Ret (IndexJs.saveToFile index_a).
Proof.
  apply (both_classes_write_the_same_text index_a part_a example_calls_a);
    vm_compute; reflexivity.
Defined.

End RoundTrip.

Section Interchange.
#[local] Open Scope string_scope.
#[local] Open Scope Z_scope.








End Interchange.

(** *** Entries and dimensions the patterns do not read *)

Section Unreadable.
#[local] Open Scope string_scope.
#[local] Open Scope Z_scope.















End Unreadable.

(** ** Laws of the operations *)

Section Algebra.




End Algebra.

Section Laws.







End Laws.

Section Sums.






End Sums.

Section IndexLaws.
Variables a b c : IndexJs.SparseMatrix.
Hypothesis Ha : valid a = true.
Hypothesis Hb : valid b = true.
Hypothesis Hc : valid c = true.







End IndexLaws.

Section PartLaws.
Variables a b c : Part000.SparseMatrix.t.
Hypothesis Ha : valid a = true.
Hypothesis Hb : valid b = true.
Hypothesis Hc : valid c = true.

#[local] Abbreviation pcols := Part000.SparseMatrix.cols.
#[local] Abbreviation prows := Part000.SparseMatrix.rows.







End PartLaws.

Section CombinedLaws.







Lemma products_nil_r (ta : list (Z * Z * Z)) : products ta [] = [].
Proof.
  unfold products. induction ta as [|[[i k] v] ta IH]; simpl; auto.
Qed.

(** X15.  The product with a matrix without entries, on either side,
    is the matrix without entries of the dimensions of the product. *)
Theorem multiply_by_empty (a zero : IndexJs.SparseMatrix)
        (a' zero' : Part000.SparseMatrix.t) :
  valid a = true -> size zero = 0%nat ->
  valid a' = true -> size zero' = 0%nat ->
  ((cols a = rows zero ->
    multiply a zero = Ret (IndexJs.new (rows a) (cols zero))) /\
   (cols zero = rows a ->
    multiply zero a = Ret (IndexJs.new (rows zero) (cols a)))) /\
  ((cols a' = rows zero' ->
    multiply a' zero' = Ret (Part000.SparseMatrix.new (rows a') (cols zero'))) /\
   (cols zero' = rows a' ->
    multiply zero' a' = Ret (Part000.SparseMatrix.new (rows zero') (cols a')))).
Proof.
  intros Hv Hs Hv' Hs'. split.
  - apply index_valid_spec in Hv. destruct Hv as [Hwf _].
    destruct (index_represents a Hwf) as (t & _ & El).
    apply size_zero_elements in Hs.
    cbn [rows cols multiply IndexJs_Matrix]. split; intros Hdim.
    + rewrite (index_multiply_elements a zero t [] El Hs Hdim).
      rewrite products_nil_r. reflexivity.
    + rewrite (index_multiply_elements zero a [] t Hs El Hdim). reflexivity.
  - change (Part000.SparseMap.valid (Part000.SparseMatrix.data a') = true) in Hv'.
    pose proof (part_proper_iterator _ (part_valid_proper _ Hv')) as Hit.
    change (JSMap.size (Part000.SparseMap.elements (Part000.SparseMatrix.data zero'))
            = 0%nat) in Hs'.
    apply size_zero_elements in Hs'.
    assert (Hz : Part000.SparseMap.iterator (Part000.SparseMatrix.data zero') = Ret []).
    { unfold Part000.SparseMap.iterator. rewrite Hs'. reflexivity. }
    cbn [rows cols multiply Part000_Matrix]. split; intros Hdim.
    + rewrite (part_multiply_elements a' zero' _ [] Hit Hz Hdim).
      rewrite products_nil_r. reflexivity.
    + rewrite (part_multiply_elements zero' a' [] _ Hz Hit Hdim). reflexivity.
Qed.

Lemma multiply_by_empty_witness :
  multiply index_a index_empty = Ret index_empty /\
  multiply part_empty part_a = Ret part_empty.
Proof.
  destruct (multiply_by_empty index_a index_empty part_a part_empty)
    as ((H1 & _) & (_ & H2)); try reflexivity.
  split; [apply H1|apply H2]; reflexivity.
Defined.





End CombinedLaws.

(** ** [add] and [subtract] over the heap *)

Section IndexHeapCombine.
Variable h : heap IndexJs.SparseMatrix.

Lemma index_copy_st (l : JSMap.t string Z) (r r' : IndexJs.SparseMatrix) :
  for_of l IndexJs.copy_entry r = Ret r' ->
  pfor l (IndexJs.copy_entry_st (List.length h)) (h ++ [r])
  = (Ret tt, h ++ [r']).
Proof.
  revert r. induction l as [|[key value] l IH]; intros r; simpl.
  - intros [= ->]. reflexivity.
  - intros Hl. unfold pbind, assign. rewrite !deref_last, replace_nth_last.
    apply IH. exact Hl.
Qed.

Lemma index_combine_entries_st (op : Z -> Z -> Z) (l : JSMap.t string Z)
      (r r' : IndexJs.SparseMatrix) :
  for_of l (IndexJs.combine_entry op) r = Ret r' ->
  pfor l (IndexJs.combine_entry_st op (List.length h)) (h ++ [r])
  = (Ret tt, h ++ [r']).
Proof.
  revert r. induction l as [|[key value] l IH]; intros r; simpl.
  - intros [= ->]. reflexivity.
  - unfold pbind at 1.
    destruct (IndexJs.coords key) as [[row col]|]; [|discriminate].
    simpl. intros Hl.
    unfold IndexJs.getElement_st, IndexJs.setElement_st, pbind, pret, assign.
    rewrite !deref_last. rewrite replace_nth_last. apply IH. exact Hl.
Qed.

Lemma index_combine_st_returns (op : Z -> Z -> Z) (this other : ref)
      (a b c : IndexJs.SparseMatrix) :
  nth_error h this = Some a -> nth_error h other = Some b ->
  (result <- for_of (IndexJs.elements a) IndexJs.copy_entry
                    (IndexJs.new (IndexJs.rows a) (IndexJs.cols a)) ;;
   for_of (IndexJs.elements b) (IndexJs.combine_entry op) result) = Ret c ->
  IndexJs.combine_st op this other h = (Ret (List.length h), h ++ [c]).
Proof.
  intros Ha Hb. unfold IndexJs.combine_st, pbind, alloc.
  unfold deref at 1. rewrite Ha.
  rewrite (deref_before _ h _ this a Ha).
  destruct (for_of (IndexJs.elements a) IndexJs.copy_entry
                   (IndexJs.new (IndexJs.rows a) (IndexJs.cols a)))
    as [r1| |] eqn:E; simpl; try discriminate.
  intros Hc. rewrite (index_copy_st _ _ r1 E).
  rewrite (deref_before _ h _ other b Hb).
  rewrite (index_combine_entries_st op _ _ c Hc). reflexivity.
Qed.

End IndexHeapCombine.

Section PartHeapCombine.
Variable h : heap Part000.SparseMap.t.

Lemma part_copy_st (l : list (Z * Z * Z)) (r r' : Part000.SparseMap.t) :
  for_of l Part000.SparseMatrix.set_entry (Part000.SparseMatrix.mk r)
  = Ret (Part000.SparseMatrix.mk r') ->
  pfor l (Part000.SparseMatrix.set_entry_st (List.length h)) (h ++ [r])
  = (Ret tt, h ++ [r']).
Proof.
  revert r. induction l as [|[[row col] value] l IH]; intros r; simpl.
  - intros [= ->]. reflexivity.
  - intros Hl. unfold Part000.SparseMatrix.setElement_st, pbind, assign.
    rewrite !deref_last, replace_nth_last. apply IH. exact Hl.
Qed.

Lemma part_combine_entries_st (op : Z -> Z -> Z) (l : list (Z * Z * Z))
      (r r' : Part000.SparseMap.t) :
  for_of l (Part000.SparseMatrix.combine_entry op) (Part000.SparseMatrix.mk r)
  = Ret (Part000.SparseMatrix.mk r') ->
  pfor l (Part000.SparseMatrix.combine_entry_st op (List.length h)) (h ++ [r])
  = (Ret tt, h ++ [r']).
Proof.
  revert r. induction l as [|[[row col] value] l IH]; intros r; simpl.
  - intros [= ->]. reflexivity.
  - intros Hl.
    unfold Part000.SparseMatrix.getElement_st, Part000.SparseMatrix.setElement_st,
      pbind, pret, assign.
    rewrite !deref_last. rewrite replace_nth_last. apply IH. exact Hl.
Qed.

Lemma part_combine_st_returns (op : Z -> Z -> Z) (this other : ref)
      (a b c : Part000.SparseMap.t) :
  nth_error h this = Some a -> nth_error h other = Some b ->
  (mine <- Part000.SparseMap.iterator a ;;
   result <- for_of mine Part000.SparseMatrix.set_entry
               (Part000.SparseMatrix.new (Part000.SparseMap.rows a)
                                         (Part000.SparseMap.cols a)) ;;
   theirs <- Part000.SparseMap.iterator b ;;
   for_of theirs (Part000.SparseMatrix.combine_entry op) result)
  = Ret (Part000.SparseMatrix.mk c) ->
  Part000.SparseMatrix.combine_st op this other h
  = (Ret (List.length h), h ++ [c]).
Proof.
  intros Ha Hb.
  unfold Part000.SparseMatrix.combine_st, Part000.SparseMatrix.iterator_st,
    Part000.SparseMatrix.lift, pbind, alloc.
  unfold deref at 1. rewrite Ha.
  rewrite (deref_before _ h _ this a Ha).
  destruct (Part000.SparseMap.iterator a) as [mine| |]; simpl; try discriminate.
  unfold Part000.SparseMatrix.new.
  destruct (for_of mine Part000.SparseMatrix.set_entry _)
    as [[r1]| |] eqn:E; simpl; try discriminate.
  rewrite (part_copy_st _ _ r1 E).
  rewrite (deref_before _ h _ other b Hb).
  destruct (Part000.SparseMap.iterator b) as [theirs| |]; simpl; try discriminate.
  intros Hc. rewrite (part_combine_entries_st op _ _ c Hc). reflexivity.
Qed.

End PartHeapCombine.

(** X18.  When [add], [subtract] or [multiply] returns, the heap is the
    heap it started from followed by one new object, the result: the
    operands, which may be one and the same object, and every other
    object are as they were. *)
Theorem operations_leave_operands
        (h : heap IndexJs.SparseMatrix) (this other : ref)
        (a b : IndexJs.SparseMatrix)
        (h' : heap Part000.SparseMap.t) (this' other' : ref)
        (a' b' : Part000.SparseMap.t) :
  nth_error h this = Some a -> nth_error h other = Some b ->
  nth_error h' this' = Some a' -> nth_error h' other' = Some b' ->
  (forall c, IndexJs.add a b = Ret c ->
             IndexJs.add_st this other h = (Ret (List.length h), h ++ [c])) /\
  (forall c, IndexJs.subtract a b = Ret c ->
             IndexJs.subtract_st this other h = (Ret (List.length h), h ++ [c])) /\
  (forall c, IndexJs.multiply a b = Ret c ->
             IndexJs.multiply_st this other h = (Ret (List.length h), h ++ [c])) /\
  (forall c, Part000.SparseMatrix.add (Part000.SparseMatrix.mk a')
                                      (Part000.SparseMatrix.mk b')
             = Ret (Part000.SparseMatrix.mk c) ->
             Part000.SparseMatrix.add_st this' other' h'
             = (Ret (List.length h'), h' ++ [c])) /\
  (forall c, Part000.SparseMatrix.subtract (Part000.SparseMatrix.mk a')
                                           (Part000.SparseMatrix.mk b')
             = Ret (Part000.SparseMatrix.mk c) ->
             Part000.SparseMatrix.subtract_st this' other' h'
             = (Ret (List.length h'), h' ++ [c])) /\
  (forall c, Part000.SparseMatrix.multiply (Part000.SparseMatrix.mk a')
                                           (Part000.SparseMatrix.mk b')
             = Ret (Part000.SparseMatrix.mk c) ->
             Part000.SparseMatrix.multiply_st this' other' h'
             = (Ret (List.length h'), h' ++ [c])).
Proof.
  intros Ha Hb Ha' Hb'. repeat split; intros c Hc.
  - apply (index_combine_st_returns h Z.add this other a b c Ha Hb Hc).
  - apply (index_combine_st_returns h Z.sub this other a b c Ha Hb Hc).
  - apply (index_multiply_st_returns h this other a b c Ha Hb Hc).
  - apply (part_combine_st_returns h' Z.add this' other' a' b' c Ha' Hb' Hc).
  - apply (part_combine_st_returns h' Z.sub this' other' a' b' c Ha' Hb' Hc).
  - apply (part_multiply_st_returns h' this' other' a' b' c Ha' Hb' Hc).
Qed.

Lemma operations_leave_operands_witness :
  IndexJs.add_st 0%nat 0%nat [index_a]
  = (Ret 1%nat,
     [index_a; IndexJs.build 2 2 [(0, 0, 2); (0, 1, 4); (1, 0, 6); (1, 1, 8)]]) /\
  Part000.SparseMatrix.multiply_st 0%nat 1%nat
    [Part000.SparseMatrix.data part_a; Part000.SparseMatrix.data part_b]
  = (Ret 2%nat,
     [Part000.SparseMatrix.data part_a; Part000.SparseMatrix.data part_b;
      Part000.SparseMap.build 2 2 [(0, 0, 5); (0, 1, 12); (1, 0, 15); (1, 1, 24)]]).
Proof.
  destruct (operations_leave_operands
              [index_a] 0%nat 0%nat index_a index_a
              [Part000.SparseMatrix.data part_a; Part000.SparseMatrix.data part_b]
              0%nat 1%nat
              (Part000.SparseMatrix.data part_a) (Part000.SparseMatrix.data part_b)
              eq_refl eq_refl eq_refl eq_refl)
    as (Hadd & _ & _ & _ & _ & Hmul).
  split.
  - apply (Hadd (IndexJs.build 2 2 [(0, 0, 2); (0, 1, 4); (1, 0, 6); (1, 1, 8)])).
    vm_compute. reflexivity.
  - apply (Hmul (Part000.SparseMap.build 2 2 [(0, 0, 5); (0, 1, 12); (1, 0, 15); (1, 1, 24)])).
    vm_compute. reflexivity.
Defined.

(** ** [main] of [src/unnamed/part_000] *)

Section Main.
#[local] Open Scope string_scope.
Variable readFile : string -> outcome string.
Variable writeFile : string -> string -> outcome unit.
Variables choice file1 file2 : string.

Lemma main_loaded (a b : Part000.SparseMatrix.t) :
  Part000.fromFile_at readFile file1 = Ret a ->
  Part000.fromFile_at readFile file2 = Ret b ->
  Part000.main readFile writeFile choice file1 file2
  = match (result <- Part000.operate choice a b ;;
           Part000.saveToFile_at writeFile "result.txt" result) with
    | Ret content =>
        Ret (Part000.mk_report [Part000.menu; "Result saved to result.txt"] []
                               [("result.txt", content)])
    | Throw msg => Ret (Part000.mk_report [Part000.menu] ["Error: " ++ msg] [])
    | Unmodelled => Unmodelled
    end.
Proof. intros Ha Hb. unfold Part000.main. rewrite Ha, Hb. reflexivity. Qed.


End Main.

Section MainRuns.
#[local] Open Scope string_scope.



(** X20.  The errors [main] of [src/unnamed/part_000] reports.  A first
    file that cannot be read ends the run with its error, whatever the
    choice and the second file; a choice other than [1], [2], [3] is
    found only after both files have loaded; choice [3] on matrices whose
    dimensions do not fit reports the error of [multiply].  In each case
    nothing is written. *)
Theorem main_reports_errors
        (readFile : string -> outcome string)
        (writeFile : string -> string -> outcome unit)
        (choice file1 file2 : string) :
  (forall msg,
      readFile file1 = Throw msg ->
      Part000.main readFile writeFile choice file1 file2
      = Ret (Part000.mk_report
               [Part000.menu]
               ["Error: Unable to read input file: " ++ msg] [])) /\
  (forall a b,
      Part000.fromFile_at readFile file1 = Ret a ->
      Part000.fromFile_at readFile file2 = Ret b ->
      (choice <> "1" -> choice <> "2" -> choice <> "3" ->
       Part000.main readFile writeFile choice file1 file2
       = Ret (Part000.mk_report
                [Part000.menu] ["Error: Invalid operation choice"] [])) /\
      (choice = "3" -> cols a <> rows b ->
       Part000.main readFile writeFile choice file1 file2
       = Ret (Part000.mk_report
                [Part000.menu]
                ["Error: Matrix dimensions are not compatible for multiplication"]
                []))).
Proof.
  split.
  - intros msg Hr. unfold Part000.main, Part000.fromFile_at. rewrite Hr.
    reflexivity.
  - intros a b Ha Hb.
    rewrite (main_loaded readFile writeFile choice file1 file2 a b Ha Hb).
    split.
    + intros H1 H2 H3. unfold Part000.operate.
      apply String.eqb_neq in H1, H2, H3. rewrite H1, H2, H3. reflexivity.
    + intros -> Hdim. unfold Part000.operate. cbn [String.eqb Ascii.eqb Bool.eqb].
      unfold Part000.SparseMatrix.multiply.
      cbn [rows cols Part000_Matrix] in Hdim.
      apply Z.eqb_neq in Hdim. rewrite Hdim. reflexivity.
Qed.

Lemma main_reports_errors_witness :
  Part000.main example_readFile example_writeFile "1" "c.txt" "b.txt"
  = Ret (Part000.mk_report
           [Part000.menu]
           ["Error: Unable to read input file: ENOENT: no such file or directory"%string]
           []).
Proof.
  destruct (main_reports_errors example_readFile example_writeFile
                                "1" "c.txt" "b.txt") as [H _].
  apply (H "ENOENT: no such file or directory"%string). reflexivity.
Defined.

End MainRuns.
